(** * Nkulisa Burials NPC: the registration and contact workflows of app.py

    A shallow embedding of the two form handlers of [app.py] (the routes
    [/register] and [/contact]) together with the services they talk to:
    the relational Member table behind SQLAlchemy, the Firebase collection
    ["members"], the SMTP relay behind Flask-Mail, Flask's flash messages and
    the process's standard output.

    Text is modelled by [string]: a sequence of 8-bit characters read as the
    code points U+0000..U+00FF, with Python's [str.isspace] and [str.lower]
    on that range. *)

From Stdlib Require Import Bool Arith ZArith List String Ascii Lia.
Import ListNotations.
Open Scope string_scope.

(* ===================================================================== *)
(** ** Python text operations used by the handlers *)
(* ===================================================================== *)

Module PyStr.

(** [str.isspace] on one character: TAB..CR, FS..US, SPACE, NEL and NBSP. *)
Definition isspace (c : ascii) : bool :=
  let n := nat_of_ascii c in
  (((9 <=? n) && (n <=? 13)) || ((28 <=? n) && (n <=? 32))
   || (n =? 133) || (n =? 160))%nat.

(** [str.lower] on one character: A..Z and the capital letters
    U+00C0..U+00DE (the sign U+00D7 apart) move up by 32. *)
Definition lower_char (c : ascii) : ascii :=
  let n := nat_of_ascii c in
  if (((65 <=? n) && (n <=? 90))
      || ((192 <=? n) && (n <=? 222) && negb (n =? 215)))%nat
  then ascii_of_nat (n + 32) else c.

(** [s.lower()] *)
Fixpoint lower (s : string) : string :=
  match s with
  | EmptyString => EmptyString
  | String c r => String (lower_char c) (lower r)
  end.

(** [s.lstrip()] *)
Fixpoint lstrip (s : string) : string :=
  match s with
  | EmptyString => EmptyString
  | String c r => if isspace c then lstrip r else s
  end.

(** [s.rstrip()] *)
Fixpoint rstrip (s : string) : string :=
  match s with
  | EmptyString => EmptyString
  | String c r =>
      match rstrip r with
      | EmptyString => if isspace c then EmptyString else String c EmptyString
      | r' => String c r'
      end
  end.

(** [s.strip()]: whitespace removed at both ends. *)
Definition strip (s : string) : string := rstrip (lstrip s).

(** Every character of [s] is whitespace. *)
Fixpoint blank (s : string) : bool :=
  match s with
  | EmptyString => true
  | String c r => isspace c && blank r
  end.

(** First and last character of a text, when it has one. *)
Definition first_char (s : string) : option ascii :=
  match s with
  | EmptyString => None
  | String c _ => Some c
  end.

Fixpoint last_char (s : string) : option ascii :=
  match s with
  | EmptyString => None
  | String c EmptyString => Some c
  | String _ r => last_char r
  end.

(** A text is trimmed when neither end is whitespace. *)
Definition trimmed (s : string) : Prop :=
  (forall c, first_char s = Some c -> isspace c = false) /\
  (forall c, last_char s = Some c -> isspace c = false).

End PyStr.

(* ===================================================================== *)
(** ** Data model *)
(* ===================================================================== *)

Module App.
Import PyStr.

(** [class Member(db.Model)]: one row of the table. [id] is [None] on an
    object that was built but not yet flushed, and the primary key after. *)
Record Member : Type := mkMember {
  id : option Z;
  full_name : string;
  email : string;
  phone : string;
  package : string
}.

(** A JSON object with text values, as in the dict literal handed to
    [firebase_db.reference("members").push]. *)
Definition json_object : Type := list (string * string).

(** [flask_mail.Message] with the three keyword arguments the code gives.
    A recipient is [None] when [MAIL_USERNAME] is not set. *)
Record Message : Type := mkMessage {
  subject : string;
  recipients : list (option string);
  body : string
}.

(** The exceptions the handlers can meet, all below [Exception]. *)
Inductive exn : Type :=
| BadRequestKeyError (key : string)   (* [request.form[key]], key absent *)
| IntegrityError (constraint : string) (* unique constraint refused at flush *)
| RuntimeError (text : string)        (* Flask: the session cannot be written *)
| ServiceError (text : string).       (* any other failure of a service call *)

(** [str(e)]. For the two library exceptions the text is the library's:
    werkzeug's description of a bad request, and the store's report of the
    violated constraint (the wording is SQLite's). *)
Definition str (e : exn) : string :=
  match e with
  | BadRequestKeyError _ =>
      "400 Bad Request: The browser (or proxy) sent a request that this server could not understand."
  | IntegrityError c => "UNIQUE constraint failed: " ++ c
  | RuntimeError t => t
  | ServiceError t => t
  end.

(** A call either returns or raises. *)
Inductive outcome (A : Type) : Type :=
| Returned (a : A)
| Raised (e : exn).
Arguments Returned {A} a.
Arguments Raised {A} e.

(** What a view function gives back to Flask. *)
Inductive response : Type :=
| Redirect (endpoint : string)        (* [redirect(url_for(endpoint))] *)
| Render (template : string)          (* [render_template(template)] *)
| SendFile (directory file : string). (* [send_from_directory(...)] *)

(** [flask.request]: the method and the submitted form, a multi-dict. *)
Record request : Type := mkRequest {
  method : string;
  form : list (string * string)
}.

(** Module-level state fixed when the process starts: [app.secret_key],
    whether [firebase_admin._apps] is non-empty, and
    [app.config["MAIL_USERNAME"]]. *)
Record config : Type := mkConfig {
  secret_key : string;
  firebase_apps : bool;
  MAIL_USERNAME : option string
}.

(** Calls that leave the process, in the order they were made. *)
Inductive call : Type :=
| CallQuery (email_arg : string)
| CallCommit (pending : list Member)
| CallPush (path : string) (value : json_object)
| CallSend (msg : Message).

(** State shared by all requests. *)
Record world : Type := mkWorld {
  member_table : list Member;         (* rows of the Member Store *)
  mirror : list (string * json_object); (* children pushed to the Mirror Store *)
  sent_mail : list Message;           (* messages the relay accepted *)
  stdout : list string;               (* lines printed *)
  calls : list call                   (* every outbound call so far *)
}.

(** State of one request: objects added to [db.session] and not yet
    flushed, and the messages flashed, as (category, message). *)
Record context : Type := mkContext {
  session_new : list Member;
  flashes : list (string * string)
}.

(** How the services behave during one request: for each kind of call,
    the exception it raises, if any. A unique-constraint violation is not
    listed here, the store decides it from its rows. Whatever else makes
    the store refuse a commit (no connection, or a backend that enforces
    the declared column lengths on an over-long value) is a commit fault. *)
Record faults : Type := mkFaults {
  query_fault : option exn;
  commit_fault : option exn;
  push_fault : option exn;
  send_fault : option exn
}.

Definition no_faults : faults := mkFaults None None None None.
Definition empty_world : world := mkWorld [] [] [] [] [].
Definition empty_context : context := mkContext [] [].

(* ===================================================================== *)
(** ** The services *)
(* ===================================================================== *)

(** [d[key]] on a multi-dict: the first value stored under [key]. *)
Fixpoint multidict_get (key : string) (d : list (string * string)) : option string :=
  match d with
  | [] => None
  | (k, v) :: rest => if k =? key then Some v else multidict_get key rest
  end.

Definition row_id (m : Member) : Z :=
  match id m with Some i => i | None => 0%Z end.

(** The key the store gives the next row: one above the largest in use. *)
Definition next_id (rows : list Member) : Z :=
  (1 + fold_right (fun m acc => Z.max (row_id m) acc) 0 rows)%Z.

Definition with_id (i : Z) (m : Member) : Member :=
  mkMember (Some i) (full_name m) (email m) (phone m) (package m).

(** [Member.query.filter_by(email=e).first()] on the rows. *)
Definition first_by_email (e : string) (rows : list Member) : option Member :=
  find (fun r => email r =? e) rows.

(** Flush of the pending objects in one transaction: each is inserted under
    a new key unless a row already has its email ([unique=True]), in which
    case the whole transaction is refused. *)
Fixpoint insert_rows (pending rows : list Member) : outcome (list Member) :=
  match pending with
  | [] => Returned rows
  | m :: rest =>
      match first_by_email (email m) rows with
      | Some _ => Raised (IntegrityError "member.email")
      | None => insert_rows rest (rows ++ [with_id (next_id rows) m])
      end
  end.

Definition log_call (c : call) (w : world) : world :=
  mkWorld (member_table w) (mirror w) (sent_mail w) (stdout w) (calls w ++ [c]).

Definition set_table (rows : list Member) (w : world) : world :=
  mkWorld rows (mirror w) (sent_mail w) (stdout w) (calls w).

Definition add_mirror (path : string) (v : json_object) (w : world) : world :=
  mkWorld (member_table w) (mirror w ++ [(path, v)]) (sent_mail w) (stdout w) (calls w).

Definition add_mail (m : Message) (w : world) : world :=
  mkWorld (member_table w) (mirror w) (sent_mail w ++ [m]) (stdout w) (calls w).

Definition add_line (l : string) (w : world) : world :=
  mkWorld (member_table w) (mirror w) (sent_mail w) (stdout w ++ [l]) (calls w).

(** The effectful operations of the handlers, indexed by what they return. *)
Inductive cmd : Type -> Type :=
| QueryFirstByEmail (e : string) : cmd (outcome (option Member))
| SessionAdd (m : Member) : cmd unit
| SessionCommit : cmd (outcome unit)
| FirebasePush (path : string) (value : json_object) : cmd (outcome unit)
| MailSend (msg : Message) : cmd (outcome unit)
| Flash (message category : string) : cmd unit
| Print (line : string) : cmd unit.

(** One operation, run atomically on the shared state and the request's
    own context. *)
Definition exec (f : faults) {X : Type} (c : cmd X) (w : world) (cx : context)
  : X * world * context :=
  match c in cmd X return X * world * context with
  | QueryFirstByEmail e =>
      let w1 := log_call (CallQuery e) w in
      match query_fault f with
      | Some x => (Raised x, w1, cx)
      | None => (Returned (first_by_email e (member_table w)), w1, cx)
      end
  | SessionAdd m =>
      (tt, w, mkContext (session_new cx ++ [m]) (flashes cx))
  | SessionCommit =>
      let w1 := log_call (CallCommit (session_new cx)) w in
      match commit_fault f with
      | Some x => (Raised x, w1, cx)
      | None =>
          match insert_rows (session_new cx) (member_table w) with
          | Returned rows => (Returned tt, set_table rows w1, mkContext [] (flashes cx))
          | Raised x => (Raised x, w1, cx)
          end
      end
  | FirebasePush path v =>
      let w1 := log_call (CallPush path v) w in
      match push_fault f with
      | Some x => (Raised x, w1, cx)
      | None => (Returned tt, add_mirror path v w1, cx)
      end
  | MailSend m =>
      let w1 := log_call (CallSend m) w in
      match send_fault f with
      | Some x => (Raised x, w1, cx)
      | None => (Returned tt, add_mail m w1, cx)
      end
  | Flash message category =>
      (tt, w, mkContext (session_new cx) (flashes cx ++ [(category, message)]))
  | Print line =>
      (tt, add_line line w, cx)
  end.

(* ===================================================================== *)
(** ** Handler programs *)
(* ===================================================================== *)

(** A handler is a tree of operations that ends by returning or raising. *)
Inductive prog (A : Type) : Type :=
| Ret (a : A)
| Raise (e : exn)
| Do (X : Type) (c : cmd X) (k : X -> prog A).
Arguments Ret {A} a.
Arguments Raise {A} e.
Arguments Do {A X} c k.

Fixpoint bind {A B : Type} (p : prog A) (f : A -> prog B) : prog B :=
  match p with
  | Ret a => f a
  | Raise e => Raise e
  | Do c k => Do c (fun x => bind (k x) f)
  end.

(** [try: p  except Exception as e: h e] *)
Fixpoint try_except {A : Type} (p : prog A) (h : exn -> prog A) : prog A :=
  match p with
  | Ret a => Ret a
  | Raise e => h e
  | Do c k => Do c (fun x => try_except (k x) h)
  end.

(** An operation that cannot raise. *)
Definition perform {X : Type} (c : cmd X) : prog X := Do c Ret.

(** An operation whose exception, if any, is raised in the handler. *)
Definition invoke {X : Type} (c : cmd (outcome X)) : prog X :=
  Do c (fun r => match r with Returned x => Ret x | Raised e => Raise e end).

Declare Scope prog_scope.
Delimit Scope prog_scope with prog.
Notation "x <- p ;; q" := (bind p (fun x => q))
  (at level 61, p at next level, right associativity) : prog_scope.
Notation "p ;; q" := (bind p (fun _ => q))
  (at level 61, right associativity) : prog_scope.
Open Scope prog_scope.

(** [request.form[key]] *)
Definition form_item (req : request) (key : string) : prog string :=
  match multidict_get key (form req) with
  | Some v => Ret v
  | None => Raise (BadRequestKeyError key)
  end.

(** What Flask says when the session is written to and the application
    has no secret key. *)
Definition session_unavailable : string :=
  "The session is unavailable because no secret key was set.  Set the secret_key on the application to something unique and secret.".

(** [flash(message, category)]. The message goes into the session; with an
    empty [app.secret_key] Flask hands out a session that cannot be written
    and the call raises. *)
Definition flash (cfg : config) (message category : string) : prog unit :=
  if secret_key cfg =? "" then Raise (RuntimeError session_unavailable)
  else perform (Flash message category).

Definition nl : string := String "010" "".

(** [def contact()] *)
Definition contact (cfg : config) (req : request) : prog response :=
  if method req =? "POST" then
    try_except
      (name <- form_item req "name" ;;
       email_ <- form_item req "email" ;;
       message <- form_item req "message" ;;
       let msg := mkMessage
         "New Contact Message - Nkulisa Burials NPC"
         [MAIL_USERNAME cfg]
         ("Name: " ++ name ++ nl ++
          "Email: " ++ email_ ++ nl ++
          nl ++
          "Message:" ++ nl ++
          message ++ nl) in
       invoke (MailSend msg) ;;
       flash cfg "Message sent successfully." "success")
      (fun e => flash cfg ("Failed to send message: " ++ str e) "danger") ;;
    Ret (Redirect "contact")
  else Ret (Render "contact.html").

(** [def register()] *)
Definition register (cfg : config) (req : request) : prog response :=
  if method req =? "POST" then
    name <- form_item req "name" ;;
    let full_name := strip name in
    phone_ <- form_item req "phone" ;;
    let phone := strip phone_ in
    email_ <- form_item req "email" ;;
    let email := lower (strip email_) in
    package <- form_item req "package" ;;
    found <- invoke (QueryFirstByEmail email) ;;
    match found with
    | Some _ =>
        flash cfg "Email already registered." "danger" ;;
        Ret (Redirect "register")
    | None =>
        let member := mkMember None full_name email phone package in
        perform (SessionAdd member) ;;
        invoke SessionCommit ;;
        try_except
          (if firebase_apps cfg then
             invoke (FirebasePush "members"
                       [("full_name", full_name);
                        ("email", email);
                        ("phone", phone);
                        ("package", package)])
           else Ret tt)
          (fun e => perform (Print ("Firebase write error: " ++ str e))) ;;
        flash cfg "Registration successful!" "success" ;;
        Ret (Redirect "index")
    end
  else Ret (Render "register.html").

Definition index : prog response := Ret (Render "index.html").
Definition about : prog response := Ret (Render "about.html").
Definition constitution : prog response :=
  Ret (SendFile "docs" "constitution.pdf").

(** The URL map. *)
Inductive route : Type := RIndex | RAbout | RContact | RRegister | RConstitution.

Definition view (cfg : config) (r : route) (req : request) : prog response :=
  match r with
  | RIndex => index
  | RAbout => about
  | RContact => contact cfg req
  | RRegister => register cfg req
  | RConstitution => constitution
  end.

(* ===================================================================== *)
(** ** Running a handler *)
(* ===================================================================== *)

(** One request served from start to end with nothing in between. *)
Fixpoint run {A : Type} (f : faults) (p : prog A) (w : world) (cx : context)
  : outcome A * world * context :=
  match p with
  | Ret a => (Returned a, w, cx)
  | Raise e => (Raised e, w, cx)
  | Do c k => let '(x, w1, cx1) := exec f c w cx in run f (k x) w1 cx1
  end.

(** A request enters with an empty session and nothing flashed. *)
Definition serve (cfg : config) (f : faults) (r : route) (req : request) (w : world)
  : outcome response * world * context :=
  run f (view cfg r req) w empty_context.

Definition result_of {A B C : Type} (x : A * B * C) : A := fst (fst x).
Definition world_of {A B C : Type} (x : A * B * C) : B := snd (fst x).
Definition context_of {A B C : Type} (x : A * B * C) : C := snd x.

(** The states of the system: the empty store at first, then whatever a
    request to any route leaves behind, under any configuration and any
    behaviour of the services. *)
Inductive reachable : world -> Prop :=
| reach_init : reachable empty_world
| reach_serve cfg f r req w :
    reachable w -> reachable (world_of (serve cfg f r req w)).

(** The calls made between two states. *)
Definition calls_since (w w' : world) : list call :=
  skipn (List.length (calls w)) (calls w').

(** The normalized form of a submitted email. *)
Definition normalize_email (raw : string) : string := lower (strip raw).

(** The store holds a row with this email. *)
Definition has_email (e : string) (rows : list Member) : Prop :=
  exists m, In m rows /\ email m = e.

(** How many rows carry this email. *)
Definition count_email (e : string) (rows : list Member) : nat :=
  List.length (filter (fun r => email r =? e) rows).

(** *** The register handler, cut at its operations

    The same text as in [register], named piece by piece, so that what is
    left of a request between two operations can be spoken of. *)

Definition mirror_record (full_name email phone package : string) : json_object :=
  [("full_name", full_name); ("email", email);
   ("phone", phone); ("package", package)].

Definition register_duplicate (cfg : config) : prog response :=
  flash cfg "Email already registered." "danger" ;;
  Ret (Redirect "register").

Definition register_finish (cfg : config) : prog response :=
  flash cfg "Registration successful!" "success" ;;
  Ret (Redirect "index").

Definition register_mirror (cfg : config) (full_name email phone package : string)
  : prog response :=
  try_except
    (if firebase_apps cfg then
       invoke (FirebasePush "members" (mirror_record full_name email phone package))
     else Ret tt)
    (fun e => perform (Print ("Firebase write error: " ++ str e))) ;;
  register_finish cfg.

Definition register_commit (cfg : config) (full_name email phone package : string)
  : prog response :=
  invoke SessionCommit ;;
  register_mirror cfg full_name email phone package.

Definition register_insert (cfg : config) (full_name email phone package : string)
  : prog response :=
  perform (SessionAdd (mkMember None full_name email phone package)) ;;
  register_commit cfg full_name email phone package.

Definition register_check (cfg : config) (full_name email phone package : string)
  : prog response :=
  found <- invoke (QueryFirstByEmail email) ;;
  match found with
  | Some _ => register_duplicate cfg
  | None => register_insert cfg full_name email phone package
  end.

(** A submission that carries the four fields of the registration form. *)
Definition submits (req : request) (name email_ phone_ package_ : string) : Prop :=
  method req = "POST" /\
  multidict_get "name" (form req) = Some name /\
  multidict_get "email" (form req) = Some email_ /\
  multidict_get "phone" (form req) = Some phone_ /\
  multidict_get "package" (form req) = Some package_.

(** A submission that carries the three fields of the contact form. *)
Definition writes_in (req : request) (name email_ message : string) : Prop :=
  method req = "POST" /\
  multidict_get "name" (form req) = Some name /\
  multidict_get "email" (form req) = Some email_ /\
  multidict_get "message" (form req) = Some message.

(** The message the contact handler composes. *)
Definition contact_message (cfg : config) (name email_ message : string) : Message :=
  mkMessage
    "New Contact Message - Nkulisa Burials NPC"
    [MAIL_USERNAME cfg]
    ("Name: " ++ name ++ nl ++ "Email: " ++ email_ ++ nl ++ nl ++
     "Message:" ++ nl ++ message ++ nl).

(** What the store is meant to keep true of its rows: emails pairwise
    distinct, each one already in normalized form. *)
Definition table_ok (rows : list Member) : Prop :=
  NoDup (map email rows) /\
  Forall (fun m => normalize_email (email m) = email m) rows.

(** How a handler ends that flashes and then returns [r]: with [r], or
    with the exception of the flash. *)
Definition flash_result (cfg : config) (r : response) : outcome response :=
  if secret_key cfg =? "" then Raised (RuntimeError session_unavailable)
  else Returned r.

(** What such a flash leaves in the list of flashed messages. *)
Definition flash_list (cfg : config) (category message : string)
  : list (string * string) :=
  if secret_key cfg =? "" then [] else [(category, message)].

(** What the mirror step leaves behind, by configuration and by how the
    push goes. *)
Definition after_mirror (cfg : config) (f : faults) (v : json_object) (w : world) : world :=
  if firebase_apps cfg then
    match push_fault f with
    | Some x => add_line ("Firebase write error: " ++ str x) (log_call (CallPush "members" v) w)
    | None => add_mirror "members" v (log_call (CallPush "members" v) w)
    end
  else w.

(* ===================================================================== *)
(** ** Two requests served at the same time *)
(* ===================================================================== *)

(** A request in progress: what is left of its handler, its own context,
    and how the services answer it. *)
Record thread : Type := mkThread {
  code : prog response;
  ctx : context;
  env : faults
}.

Definition start (p : prog response) (f : faults) : thread :=
  mkThread p empty_context f.

(** The thread performs its next operation; a finished thread stays put. *)
Definition step_thread (t : thread) (w : world) : thread * world :=
  match code t with
  | Do c k =>
      let '(x, w1, cx1) := exec (env t) c w (ctx t) in
      (mkThread (k x) cx1 (env t), w1)
  | _ => (t, w)
  end.

Definition finished (t : thread) : bool :=
  match code t with
  | Do _ _ => false
  | _ => true
  end.

Definition final (t : thread) : option (outcome response) :=
  match code t with
  | Ret a => Some (Returned a)
  | Raise e => Some (Raised e)
  | Do _ _ => None
  end.

(** Two threads under a schedule: [false] lets the first one perform an
    operation, [true] the second. Operations are atomic, the threads
    interleave between them. *)
Fixpoint interleave (sched : list bool) (t1 t2 : thread) (w : world)
  : thread * thread * world :=
  match sched with
  | [] => (t1, t2, w)
  | false :: s => let '(t1', w1) := step_thread t1 w in interleave s t1' t2 w1
  | true :: s => let '(t2', w1) := step_thread t2 w in interleave s t1 t2' w1
  end.

(** Every way a registration request can go, with what it leaves behind. *)
Inductive register_case (cfg : config) (f : faults) (req : request) (w : world)
  : outcome response * world * context -> Prop :=
| rc_get :
    method req <> "POST" ->
    register_case cfg f req w (Returned (Render "register.html"), w, empty_context)
| rc_bad_request key :
    multidict_get key (form req) = None ->
    register_case cfg f req w (Raised (BadRequestKeyError key), w, empty_context)
| rc_query_fault n e p k x :
    submits req n e p k ->
    query_fault f = Some x ->
    register_case cfg f req w
      (Raised x, log_call (CallQuery (normalize_email e)) w, empty_context)
| rc_duplicate n e p k m :
    submits req n e p k ->
    query_fault f = None ->
    first_by_email (normalize_email e) (member_table w) = Some m ->
    register_case cfg f req w
      (flash_result cfg (Redirect "register"),
       log_call (CallQuery (normalize_email e)) w,
       mkContext [] (flash_list cfg "danger" "Email already registered."))
| rc_commit_fault n e p k x :
    submits req n e p k ->
    query_fault f = None ->
    first_by_email (normalize_email e) (member_table w) = None ->
    commit_fault f = Some x ->
    register_case cfg f req w
      (Raised x,
       log_call (CallCommit [mkMember None (strip n) (normalize_email e) (strip p) k])
         (log_call (CallQuery (normalize_email e)) w),
       mkContext [mkMember None (strip n) (normalize_email e) (strip p) k] [])
| rc_success n e p k :
    submits req n e p k ->
    query_fault f = None ->
    first_by_email (normalize_email e) (member_table w) = None ->
    commit_fault f = None ->
    register_case cfg f req w
      (flash_result cfg (Redirect "index"),
       after_mirror cfg f (mirror_record (strip n) (normalize_email e) (strip p) k)
         (set_table
            (member_table w ++
               [mkMember (Some (next_id (member_table w)))
                  (strip n) (normalize_email e) (strip p) k])
            (log_call (CallCommit [mkMember None (strip n) (normalize_email e) (strip p) k])
               (log_call (CallQuery (normalize_email e)) w))),
       mkContext [] (flash_list cfg "success" "Registration successful!")).

(** *** Where a racing registration stands

    Between two operations a registration is about to check, about to add
    its object to the session, about to commit, or past the store: it has
    written its row, it has been told the email exists, or the store has
    refused its row. *)
Inductive phase : Type :=
| Checking | Adding | Committing | Won | Duplicate | Refused.

Definition won (ph : phase) : nat :=
  match ph with Won => 1 | _ => 0 end.

Definition settled (ph : phase) : bool :=
  match ph with Duplicate | Refused => true | _ => false end.

(** Operations that go to the Member Store or to [db.session]. *)
Definition store_op {X : Type} (c : cmd X) : bool :=
  match c with
  | QueryFirstByEmail _ | SessionAdd _ | SessionCommit => true
  | _ => false
  end.

(** The program leaves the store alone and can only end by returning [r]. *)
Fixpoint ends_in (r : response) (p : prog response) : Prop :=
  match p with
  | Ret a => a = r
  | Raise _ => False
  | Do c k => store_op c = false /\ forall x, ends_in r (k x)
  end.

(** The program ends after at most [n] operations. *)
Fixpoint within (n : nat) (p : prog response) {struct p} : Prop :=
  match p with
  | Do c k =>
      match n with
      | O => False
      | S m => forall x, within m (k x)
      end
  | _ => True
  end.

(** The store answers the thread's query and takes its commit, the unique
    constraint apart. *)
Definition healthy (f : faults) : Prop :=
  query_fault f = None /\ commit_fault f = None.

(** The thread of a registration of [fn], [e], [p], [k] at a phase: what
    is left of its handler, and what it has flashed. *)
Definition at_phase (cfg : config) (fn e p k : string) (ph : phase) (t : thread) : Prop :=
  healthy (env t) /\
  match ph with
  | Checking =>
      code t = register_check cfg fn e p k /\ ctx t = empty_context
  | Adding =>
      code t = register_insert cfg fn e p k /\ ctx t = empty_context
  | Committing =>
      code t = register_commit cfg fn e p k /\
      ctx t = mkContext [mkMember None fn e p k] []
  | Won => ends_in (Redirect "index") (code t)
  | Duplicate =>
      (code t = register_duplicate cfg /\ flashes (ctx t) = []) \/
      (code t = Ret (Redirect "register") /\
       flashes (ctx t) = [("danger", "Email already registered.")])
  | Refused =>
      code t = Raise (IntegrityError "member.email") /\ flashes (ctx t) = []
  end.

(** The calls to the Member Store among the calls of a log. *)
Definition store_call (c : call) : bool :=
  match c with
  | CallQuery _ | CallCommit _ => true
  | _ => false
  end.

Definition store_calls (l : list call) : list call := filter store_call l.

(** What one operation of a registration of email [e] with pending object
    [m] does to the shared state, by the phase it leaves and the phase it
    enters. *)
Inductive transition (e : string) (m : Member) : phase -> phase -> world -> world -> Prop :=
| tr_pass w :
    first_by_email e (member_table w) = None ->
    transition e m Checking Adding w (log_call (CallQuery e) w)
| tr_found w r :
    first_by_email e (member_table w) = Some r ->
    transition e m Checking Duplicate w (log_call (CallQuery e) w)
| tr_add w :
    transition e m Adding Committing w w
| tr_commit w :
    first_by_email e (member_table w) = None ->
    transition e m Committing Won w
      (set_table (member_table w ++ [with_id (next_id (member_table w)) m])
         (log_call (CallCommit [m]) w))
| tr_refuse w r :
    first_by_email e (member_table w) = Some r ->
    transition e m Committing Refused w (log_call (CallCommit [m]) w)
| tr_quiet ph w w' d :
    settled ph = true \/ ph = Won ->
    member_table w' = member_table w ->
    calls w' = (calls w ++ d)%list ->
    store_calls d = [] ->
    transition e m ph ph w w'.

(** The DuplicateEmail outcome: back to the form, with its message. *)
Definition duplicate_end (t : thread) : Prop :=
  final t = Some (Returned (Redirect "register")) /\
  flashes (ctx t) = [("danger", "Email already registered.")].

(** The store's exception left the handler: no redirect, nothing flashed. *)
Definition refused_end (t : thread) : Prop :=
  final t = Some (Raised (IntegrityError "member.email")) /\
  flashes (ctx t) = [].

(** Turns a schedule gives to the first ([false]) or second ([true]) thread. *)
Definition turns (b : bool) (sched : list bool) : nat :=
  count_occ Bool.bool_dec sched b.

Definition thread1 (x : thread * thread * world) : thread := fst (fst x).
Definition thread2 (x : thread * thread * world) : thread := snd (fst x).
Definition shared (x : thread * thread * world) : world := snd x.

(** A registration that has passed the existence check has one query
    before any commit in the log. *)
Definition passed (ph : phase) : nat :=
  match ph with Checking | Duplicate => 0 | _ => 1 end.

(** The calls two racing registrations of email [e] have made to the
    store, in order, by their phases: the queries that found nothing, then
    the winner's commit, then what the other did after it, a query that
    found the row or a commit that was refused. [m1] and [m2] are the
    objects the two requests add. *)
Definition store_trace (e : string) (m1 m2 : Member) (ph1 ph2 : phase) : list call :=
  (repeat (CallQuery e) (passed ph1 + passed ph2) ++
   match ph1, ph2 with
   | Won, Duplicate => [CallCommit [m1]; CallQuery e]
   | Won, Refused => [CallCommit [m1]; CallCommit [m2]]
   | Won, Won => []
   | Won, _ => [CallCommit [m1]]
   | Duplicate, Won => [CallCommit [m2]; CallQuery e]
   | Refused, Won => [CallCommit [m2]; CallCommit [m1]]
   | _, Won => [CallCommit [m2]]
   | _, _ => []
   end)%list.

(** Phases two registrations of one email can be at together: at most one
    has written, and one that was turned away was so by the other's row. *)
Definition compatible (ph1 ph2 : phase) : bool :=
  match ph1, ph2 with
  | Won, Won => false
  | Won, _ | _, Won => true
  | _, _ => negb (settled ph1) && negb (settled ph2)
  end.

(** Two registrations of the same normalized email [e] that started in
    the state [w0], at phases [ph1] and [ph2]: the table has as many rows
    with [e] as there are winners, and the store calls made since [w0] are
    those of the phases. *)
Definition race_inv (cfg : config) (fn1 p1 k1 fn2 p2 k2 e : string) (w0 : world)
    (ph1 ph2 : phase) (x : thread * thread * world) : Prop :=
  at_phase cfg fn1 e p1 k1 ph1 (thread1 x) /\
  at_phase cfg fn2 e p2 k2 ph2 (thread2 x) /\
  compatible ph1 ph2 = true /\
  count_email e (member_table (shared x)) = won ph1 + won ph2 /\
  exists d,
    calls (shared x) = (calls w0 ++ d)%list /\
    store_calls d =
      store_trace e (mkMember None fn1 e p1 k1) (mkMember None fn2 e p2 k2) ph1 ph2.

(** Two registration requests served together under a schedule. *)
Definition race (cfg : config) (f1 f2 : faults) (req1 req2 : request)
    (sched : list bool) (w : world) : thread * thread * world :=
  interleave sched (start (register cfg req1) f1) (start (register cfg req2) f2) w.

(** *** Any number of requests in progress

    The requests being served, each somewhere in its handler, over the
    shared state: a request is accepted at any time, and any request in
    progress may perform its next operation. *)
Inductive in_flight : list thread -> world -> Prop :=
| flight_init : in_flight [] empty_world
| flight_accept cfg f r req ts w :
    in_flight ts w ->
    in_flight (start (view cfg r req) f :: ts) w
| flight_step ts1 t ts2 w :
    in_flight (ts1 ++ t :: ts2) w ->
    in_flight (ts1 ++ fst (step_thread t w) :: ts2) (snd (step_thread t w)).

(** The object an operation adds to the session has a normalized email. *)
Definition adds_ok {X : Type} (c : cmd X) : Prop :=
  match c with
  | SessionAdd m => normalize_email (email m) = email m
  | _ => True
  end.

(** Every object the program may still add has a normalized email. *)
Fixpoint adds_normalized (p : prog response) : Prop :=
  match p with
  | Do c k => adds_ok c /\ forall x, adds_normalized (k x)
  | _ => True
  end.

(** So have the objects already in the thread's session. *)
Definition thread_ok (t : thread) : Prop :=
  Forall (fun m => normalize_email (email m) = email m) (session_new (ctx t)) /\
  adds_normalized (code t).

(* ===================================================================== *)
(** ** Sample submissions *)
(* ===================================================================== *)

Definition cfg_on : config :=
  mkConfig "dev_secret_key" true (Some "office@example.org").
Definition cfg_off : config := mkConfig "dev_secret_key" false None.

(** [SECRET_KEY] set to the empty text. *)
Definition cfg_keyless : config := mkConfig "" true (Some "office@example.org").

Definition jane : request :=
  mkRequest "POST"
    [("name", " Jane Doe "); ("email", " Jane@Example.com ");
     ("phone", "0712345678"); ("package", "Gold")].

Definition jane_again : request :=
  mkRequest "POST"
    [("name", "J. Doe"); ("email", "JANE@EXAMPLE.COM  ");
     ("phone", "0798765432"); ("package", "Silver")].

Definition blank_form : request :=
  mkRequest "POST"
    [("name", "   "); ("email", "a@b.c"); ("phone", ""); ("package", "Gold")].

Definition note : request :=
  mkRequest "POST"
    [("name", "Sipho"); ("email", "sipho@example.org"); ("message", "Hello")].

Definition mirror_down : faults :=
  mkFaults None None (Some (ServiceError "connection refused")) None.

Definition store_down : faults :=
  mkFaults None (Some (ServiceError "server closed the connection")) None None.

Definition relay_down : faults :=
  mkFaults None None None (Some (ServiceError "authentication failed")).

Definition jane_row : Member :=
  mkMember (Some 1%Z) "Jane Doe" "jane@example.com" "0712345678" "Gold".

(** The store after Jane registered, with the mirror switched off. *)
Definition jane_world : world :=
  world_of (serve cfg_off no_faults RRegister jane empty_world).

(** The store after Jane registered, then tried again under another
    spelling of her email, then a blank form came in. *)
Definition busy_world : world :=
  world_of (serve cfg_on mirror_down RRegister blank_form
    (world_of (serve cfg_on no_faults RRegister jane_again jane_world))).

(** Both requests check before either commits. *)
Definition both_check_first : list bool :=
  [false; true; false; false; false; false; false; true; true; true; true; true].

(** Jane's two submissions under that schedule. *)
Definition race_jane : thread * thread * world :=
  race cfg_on no_faults no_faults jane jane_again both_check_first empty_world.

(** The first request runs to its end before the second starts. *)
Definition one_after_the_other : list bool :=
  [false; false; false; false; false; false; true; true; true; true; true; true].

Definition race_jane_late : thread * thread * world :=
  race cfg_on no_faults no_faults jane jane_again one_after_the_other empty_world.

End App.

(* ===================================================================== *)
(** ** Process start: configuration and the Firebase session *)
(* ===================================================================== *)

Module Startup.

(** [os.environ] once [load_dotenv()] has run. *)
Definition environ : Type := list (string * string).

(** [os.getenv(key)] *)
Fixpoint getenv (key : string) (env : environ) : option string :=
  match env with
  | [] => None
  | (k, v) :: rest => if k =? key then Some v else getenv key rest
  end.

(** [os.getenv(key, default)] *)
Definition getenv_or (key default : string) (env : environ) : string :=
  match getenv key env with
  | Some v => v
  | None => default
  end.

(** Truth value of an optional text: [None] and the empty text are false. *)
Definition truthy (o : option string) : bool :=
  match o with
  | Some (String _ _) => true
  | _ => false
  end.

(** [s.startswith(prefix)] *)
Fixpoint startswith (prefix s : string) : bool :=
  match prefix, s with
  | EmptyString, _ => true
  | String a p, String b r => Ascii.eqb a b && startswith p r
  | String _ _, EmptyString => false
  end.

(** [s[n:]] *)
Fixpoint drop (n : nat) (s : string) : string :=
  match n, s with
  | O, _ => s
  | S m, String _ r => drop m r
  | S _, EmptyString => EmptyString
  end.

(** [s.replace(old, new, 1)]: the leftmost occurrence of [old] replaced. *)
Fixpoint replace_first (old new s : string) : string :=
  if startswith old s then new ++ drop (String.length old) s
  else
    match s with
    | EmptyString => EmptyString
    | String c r => String c (replace_first old new r)
    end.

(** Lines 26 to 29: the address read from [DATABASE_URL], with the scheme
    [postgres://] rewritten. *)
Definition database_url (env : environ) : option string :=
  match getenv "DATABASE_URL" env with
  | Some u =>
      if truthy (Some u) && startswith "postgres://" u
      then Some (replace_first "postgres://" "postgresql://" u)
      else Some u
  | None => None
  end.

(** [a or b] on an optional text. *)
Definition or_else (a : option string) (b : string) : string :=
  match a with
  | Some (String c r) => String c r
  | _ => b
  end.

(** The entries the module writes into [app.config], and [app.secret_key]. *)
Record flask_config : Type := mkFlaskConfig {
  secret_key : string;
  SQLALCHEMY_DATABASE_URI : string;
  SQLALCHEMY_TRACK_MODIFICATIONS : bool;
  MAIL_SERVER : string;
  MAIL_PORT : Z;
  MAIL_USE_TLS : bool;
  MAIL_USERNAME : option string;
  MAIL_PASSWORD : option string;
  MAIL_DEFAULT_SENDER : option string
}.

Definition configure (env : environ) : flask_config :=
  mkFlaskConfig
    (getenv_or "SECRET_KEY" "dev_secret_key" env)
    (or_else (database_url env) "sqlite:///nkulisa.db")
    false
    "smtp.gmail.com"
    587%Z
    true
    (getenv "MAIL_USERNAME" env)
    (getenv "MAIL_PASSWORD" env)
    (getenv "MAIL_USERNAME" env).

(** The line the Firebase block prints. The texts open with a sign outside
    the modelled range of characters, so the three lines are told apart by
    constructor: "Firebase initialized safely via ENV", "Firebase
    initialization error:" with the exception, and "Firebase not initialized
    (missing FIREBASE_CREDENTIALS)". *)
Inductive startup_line : Type :=
| LineInitialized
| LineInitError (e : App.exn)
| LineNotInitialized.

(** What the Firebase block leaves: whether [firebase_admin._apps] is
    non-empty, the calls made to initialize (credentials text and
    [databaseURL]), and the line printed. *)
Record firebase_state : Type := mkFirebaseState {
  apps : bool;
  init_calls : list (string * option string);
  printed : startup_line
}.

(** Lines 51 to 64. [apps0] says whether [firebase_admin._apps] was
    non-empty before; [attempt] is the exception, if any, that parsing the
    credentials or [initialize_app] raises. *)
Definition firebase_init (env : environ) (apps0 : bool) (attempt : option App.exn)
  : firebase_state :=
  let firebase_credentials := getenv "FIREBASE_CREDENTIALS" env in
  let firebase_db_url := getenv "FIREBASE_DB_URL" env in
  if truthy firebase_credentials && negb apps0 then
    match attempt with
    | None =>
        mkFirebaseState true
          [(or_else firebase_credentials "", firebase_db_url)] LineInitialized
    | Some e =>
        mkFirebaseState apps0
          [(or_else firebase_credentials "", firebase_db_url)] (LineInitError e)
    end
  else mkFirebaseState apps0 [] LineNotInitialized.

(** What the handlers read of all this. *)
Definition handler_config (env : environ) (apps0 : bool) (attempt : option App.exn)
  : App.config :=
  App.mkConfig
    (secret_key (configure env))
    (apps (firebase_init env apps0 attempt))
    (MAIL_USERNAME (configure env)).

(** Sample environments. *)
Definition env_render : environ :=
  [("DATABASE_URL", "postgres://u:p@db.example.org/nkulisa?next=postgres://x");
   ("MAIL_USERNAME", "office@example.org");
   ("FIREBASE_CREDENTIALS", "{not json");
   ("FIREBASE_DB_URL", "https://nkulisa.example.org")].

Definition env_bare : environ := [("DATABASE_URL", "")].

(** [SECRET_KEY] set, to the empty text. *)
Definition env_keyless : environ :=
  [("SECRET_KEY", ""); ("MAIL_USERNAME", "office@example.org")].

End Startup.

(* ===================================================================== *)
(** ** What requests keep true of the stores *)
(* ===================================================================== *)

Module Lifecycle.
Import PyStr App.

(** [w'] is reached from [w] by serving further requests, one after the
    other. *)
Inductive later : world -> world -> Prop :=
| later_now w : later w w
| later_serve cfg f r req w w' :
    later w w' -> later w (world_of (serve cfg f r req w')).

(** A stored row as the handler writes it: name and phone trimmed, email
    normalized, a key assigned. *)
Definition row_ok (m : Member) : Prop :=
  strip (full_name m) = full_name m /\
  strip (phone m) = phone m /\
  normalize_email (email m) = email m /\
  id m <> None.

(** The largest key in use, 0 on the empty table. *)
Definition max_id (rows : list Member) : Z :=
  fold_right (fun m acc => Z.max (row_id m) acc) 0%Z rows.

(** Keys are assigned, positive, below the next key, and pairwise distinct. *)
Definition ids_ok (rows : list Member) : Prop :=
  NoDup (map row_id rows) /\
  Forall (fun m => id m = Some (row_id m) /\ (0 < row_id m < next_id rows)%Z) rows.

(** Every child of the mirror is the copy of a row of the table. *)
Definition mirror_backed (w : world) : Prop :=
  forall path v,
    In (path, v) (mirror w) ->
    path = "members" /\
    exists m, In m (member_table w) /\
      v = mirror_record (full_name m) (email m) (phone m) (package m).

(** Every way a contact request can go. *)
Inductive contact_case (cfg : config) (f : faults) (req : request) (w : world)
  : outcome response * world * context -> Prop :=
| cc_get :
    method req <> "POST" ->
    contact_case cfg f req w (Returned (Render "contact.html"), w, empty_context)
| cc_missing key :
    method req = "POST" ->
    multidict_get key (form req) = None ->
    contact_case cfg f req w
      (flash_result cfg (Redirect "contact"), w,
       mkContext []
         (flash_list cfg "danger"
            ("Failed to send message: " ++ str (BadRequestKeyError key))))
| cc_send_fault n e m x :
    writes_in req n e m ->
    send_fault f = Some x ->
    contact_case cfg f req w
      (flash_result cfg (Redirect "contact"),
       log_call (CallSend (contact_message cfg n e m)) w,
       mkContext [] (flash_list cfg "danger" ("Failed to send message: " ++ str x)))
| cc_sent n e m :
    writes_in req n e m ->
    send_fault f = None ->
    contact_case cfg f req w
      (flash_result cfg (Redirect "contact"),
       add_mail (contact_message cfg n e m)
         (log_call (CallSend (contact_message cfg n e m)) w),
       mkContext [] (flash_list cfg "success" "Message sent successfully.")).

(** The first of the four registration fields, in the order the handler
    reads them, that a form lacks. *)
Definition first_missing (d : list (string * string)) : option string :=
  match multidict_get "name" d with
  | None => Some "name"
  | Some _ =>
      match multidict_get "phone" d with
      | None => Some "phone"
      | Some _ =>
          match multidict_get "email" d with
          | None => Some "email"
          | Some _ =>
              match multidict_get "package" d with
              | None => Some "package"
              | Some _ => None
              end
          end
      end
  end.

(** Two registrations of different normalized emails [e1] and [e2] served
    together: neither has been turned away, and each email has a row
    exactly when its request has written it. *)
Definition apart_inv (cfg : config) (fn1 e1 p1 k1 fn2 e2 p2 k2 : string)
    (ph1 ph2 : phase) (x : thread * thread * world) : Prop :=
  at_phase cfg fn1 e1 p1 k1 ph1 (thread1 x) /\
  at_phase cfg fn2 e2 p2 k2 ph2 (thread2 x) /\
  settled ph1 = false /\ settled ph2 = false /\
  count_email e1 (member_table (shared x)) = won ph1 /\
  count_email e2 (member_table (shared x)) = won ph2.

(** Sample submissions. *)
Definition no_phone : request :=
  mkRequest "POST" [("name", "Jane"); ("email", "jane@example.com")].

Definition sipho : request :=
  mkRequest "POST"
    [("name", "Sipho"); ("email", "Sipho@Example.org");
     ("phone", "0820000000"); ("package", "Silver")].

Definition query_down : faults :=
  mkFaults (Some (ServiceError "could not connect")) None None None.

Definition race_apart : thread * thread * world :=
  race cfg_on no_faults mirror_down jane sipho both_check_first empty_world.

End Lifecycle.

(* ===================================================================== *)
(** ** Text operations: facts *)
(* ===================================================================== *)

Module PyStrFacts.
Import PyStr.

Example strip_jane : strip " Jane Doe " = "Jane Doe".
Proof. reflexivity. Qed.

Example lower_strip_jane : lower (strip " Jane@Example.com ") = "jane@example.com".
Proof. reflexivity. Qed.

Example strip_inner_kept : strip (String "009" "a  b" ++ String "010" "") = "a  b".
Proof. reflexivity. Qed.

(** *** Facts about [strip] and [lower] *)

Lemma lstrip_blank s : blank s = true -> lstrip s = "".
Proof.
  induction s as [|c r IH]; simpl; [reflexivity|].
  intros H. apply andb_true_iff in H as [Hc Hr]. rewrite Hc. auto.
Qed.

Lemma rstrip_blank s : blank s = true -> rstrip s = "".
Proof.
  induction s as [|c r IH]; simpl; [reflexivity|].
  intros H. apply andb_true_iff in H as [Hc Hr].
  rewrite (IH Hr), Hc. reflexivity.
Qed.

Lemma rstrip_empty_blank s : rstrip s = "" -> blank s = true.
Proof.
  induction s as [|c r IH]; simpl; [reflexivity|].
  destruct (rstrip r) eqn:E; [|discriminate].
  destruct (isspace c); [|discriminate].
  intros _. simpl. auto.
Qed.

Lemma lstrip_empty_blank s : lstrip s = "" -> blank s = true.
Proof.
  induction s as [|c r IH]; simpl; [reflexivity|].
  destruct (isspace c); [auto|discriminate].
Qed.

Lemma blank_lstrip s : blank (lstrip s) = blank s.
Proof.
  induction s as [|c r IH]; simpl; [reflexivity|].
  destruct (isspace c) eqn:E; simpl; [assumption|].
  rewrite E. reflexivity.
Qed.

(** [strip] yields the empty text exactly on blank input. *)
Lemma strip_empty_iff s : strip s = "" <-> blank s = true.
Proof.
  unfold strip. split.
  - intros H. apply rstrip_empty_blank in H. now rewrite blank_lstrip in H.
  - intros H. apply rstrip_blank. now rewrite blank_lstrip.
Qed.

Lemma lstrip_first s c : first_char (lstrip s) = Some c -> isspace c = false.
Proof.
  induction s as [|a r IH]; simpl; [discriminate|].
  destruct (isspace a) eqn:E; [assumption|].
  simpl. intros [= <-]. exact E.
Qed.

Lemma rstrip_first s c :
  first_char s = Some c -> isspace c = false -> first_char (rstrip s) = Some c.
Proof.
  destruct s as [|a r]; simpl; [discriminate|].
  intros [= ->] Hc. destruct (rstrip r); [rewrite Hc|]; reflexivity.
Qed.

Lemma rstrip_first_inv s c :
  first_char (rstrip s) = Some c -> first_char s = Some c.
Proof.
  destruct s as [|a r]; simpl; [discriminate|].
  destruct (rstrip r); [destruct (isspace a)|]; simpl; congruence.
Qed.

Lemma rstrip_last s c : last_char (rstrip s) = Some c -> isspace c = false.
Proof.
  induction s as [|a r IH]; simpl; [discriminate|].
  destruct (rstrip r) as [|b r'] eqn:E.
  - destruct (isspace a) eqn:Ea; simpl; [discriminate|].
    intros [= <-]. exact Ea.
  - intros H. apply IH. exact H.
Qed.

(** The result of [strip] has no whitespace at either end. *)
Lemma strip_trimmed s : trimmed (strip s).
Proof.
  unfold strip. split; intros c H.
  - apply rstrip_first_inv in H. eapply lstrip_first; eassumption.
  - eapply rstrip_last; eassumption.
Qed.

Lemma lstrip_fixed s :
  (forall c, first_char s = Some c -> isspace c = false) -> lstrip s = s.
Proof.
  destruct s as [|a r]; simpl; [reflexivity|].
  intros H. now rewrite (H a eq_refl).
Qed.

Lemma rstrip_fixed s :
  (forall c, last_char s = Some c -> isspace c = false) -> rstrip s = s.
Proof.
  induction s as [|a r IH]; simpl; [reflexivity|].
  intros H. destruct r as [|b r'].
  - simpl. now rewrite (H a eq_refl).
  - rewrite IH by exact H. reflexivity.
Qed.

Lemma strip_fixed s : trimmed s -> strip s = s.
Proof.
  intros [Hf Hl]. unfold strip. rewrite (lstrip_fixed s Hf). now apply rstrip_fixed.
Qed.

Lemma strip_idem s : strip (strip s) = strip s.
Proof. apply strip_fixed, strip_trimmed. Qed.

(** Lower-casing never turns a character into whitespace, or back. *)
Lemma isspace_lower_char c : isspace (lower_char c) = isspace c.
Proof.
  destruct c as [[] [] [] [] [] [] [] []]; reflexivity.
Qed.

Lemma lower_char_idem c : lower_char (lower_char c) = lower_char c.
Proof.
  destruct c as [[] [] [] [] [] [] [] []]; reflexivity.
Qed.

Lemma lower_idem s : lower (lower s) = lower s.
Proof.
  induction s as [|c r IH]; simpl; [reflexivity|].
  now rewrite lower_char_idem, IH.
Qed.

Lemma first_char_lower s :
  first_char (lower s) = option_map lower_char (first_char s).
Proof. destruct s; reflexivity. Qed.

Lemma last_char_lower s :
  last_char (lower s) = option_map lower_char (last_char s).
Proof.
  induction s as [|a r IH]; simpl; [reflexivity|].
  destruct r as [|b r']; [reflexivity|]. exact IH.
Qed.

Lemma lower_trimmed s : trimmed s -> trimmed (lower s).
Proof.
  intros [Hf Hl]. split; intros c H.
  - rewrite first_char_lower in H. destruct (first_char s) as [a|]; [|discriminate].
    injection H as <-. rewrite isspace_lower_char. now apply Hf.
  - rewrite last_char_lower in H. destruct (last_char s) as [a|]; [|discriminate].
    injection H as <-. rewrite isspace_lower_char. now apply Hl.
Qed.

End PyStrFacts.

(* ===================================================================== *)
(** ** One request at a time: facts *)
(* ===================================================================== *)

Module AppFacts.
Import PyStr PyStrFacts App.
Local Open Scope list_scope.

Lemma first_by_email_found e rows m :
  first_by_email e rows = Some m -> In m rows /\ email m = e.
Proof.
  unfold first_by_email. intros H. apply find_some in H as [Hin He].
  split; [exact Hin|]. now apply String.eqb_eq.
Qed.

Lemma first_by_email_absent e rows :
  first_by_email e rows = None <-> ~ has_email e rows.
Proof.
  unfold first_by_email, has_email. split.
  - intros H [m [Hin He]].
    pose proof (find_none _ _ H m Hin) as Hm. simpl in Hm.
    rewrite He, String.eqb_refl in Hm. discriminate.
  - intros H. destruct (find _ rows) as [m|] eqn:E; [|reflexivity].
    exfalso. apply H. exists m. apply find_some in E as [Hin He].
    split; [exact Hin|]. now apply String.eqb_eq.
Qed.

Lemma first_by_email_present e rows :
  has_email e rows -> exists m, first_by_email e rows = Some m.
Proof.
  intros H. destruct (first_by_email e rows) as [m|] eqn:E; [now exists m|].
  apply first_by_email_absent in E. contradiction.
Qed.

Lemma calls_since_app w w' d :
  calls w' = calls w ++ d -> calls_since w w' = d.
Proof.
  unfold calls_since. intros ->.
  rewrite skipn_app, skipn_all, Nat.sub_diag. reflexivity.
Qed.

(** With its four fields present, a submission goes straight to the
    existence check on the normalized values. *)
Lemma register_submitted cfg req n e p k :
  submits req n e p k ->
  register cfg req = register_check cfg (strip n) (normalize_email e) (strip p) k.
Proof.
  intros (Hm & Hn & He & Hp & Hk).
  unfold register, form_item. rewrite Hm, Hn, He, Hp, Hk. reflexivity.
Qed.

(** A flash and a return: with a secret key the message is flashed and
    the response returned, without one the flash raises. *)
Lemma run_flash_return cfg f msg cat r w cx :
  run f (flash cfg msg cat ;; Ret r) w cx =
    (flash_result cfg r, w,
     mkContext (session_new cx) (flashes cx ++ flash_list cfg cat msg)).
Proof.
  unfold flash, flash_result, flash_list.
  destruct (secret_key cfg =? ""); simpl; [|reflexivity].
  rewrite app_nil_r. destruct cx; reflexivity.
Qed.

Lemma flash_result_keyed cfg r :
  secret_key cfg <> "" -> flash_result cfg r = Returned r.
Proof.
  intros H. unfold flash_result.
  destruct (secret_key cfg =? "") eqn:E; [|reflexivity].
  apply String.eqb_eq in E. contradiction.
Qed.

Lemma flash_list_keyed cfg cat msg :
  secret_key cfg <> "" -> flash_list cfg cat msg = [(cat, msg)].
Proof.
  intros H. unfold flash_list.
  destruct (secret_key cfg =? "") eqn:E; [|reflexivity].
  apply String.eqb_eq in E. contradiction.
Qed.

Lemma flash_result_keyless cfg r :
  secret_key cfg = "" -> flash_result cfg r = Raised (RuntimeError session_unavailable).
Proof. intros H. unfold flash_result. now rewrite H. Qed.

Lemma flash_list_keyless cfg cat msg :
  secret_key cfg = "" -> flash_list cfg cat msg = [].
Proof. intros H. unfold flash_list. now rewrite H. Qed.

(** The check finds a row: the handler flashes and stops, the stores are
    not touched. *)
Lemma run_check_duplicate cfg f fn e p k w cx m :
  query_fault f = None ->
  first_by_email e (member_table w) = Some m ->
  run f (register_check cfg fn e p k) w cx =
    (flash_result cfg (Redirect "register"),
     log_call (CallQuery e) w,
     mkContext (session_new cx)
       (flashes cx ++ flash_list cfg "danger" "Email already registered.")).
Proof.
  intros Hq Hm.
  change (register_check cfg fn e p k) with
    (found <- invoke (QueryFirstByEmail e) ;;
     match found with
     | Some _ => register_duplicate cfg
     | None => register_insert cfg fn e p k
     end).
  cbn [run bind invoke perform exec]. rewrite Hq, Hm.
  cbn [bind]. unfold register_duplicate. apply run_flash_return.
Qed.

Lemma run_mirror cfg f fn e p k w cx :
  run f (register_mirror cfg fn e p k) w cx =
    (flash_result cfg (Redirect "index"),
     after_mirror cfg f (mirror_record fn e p k) w,
     mkContext (session_new cx)
       (flashes cx ++ flash_list cfg "success" "Registration successful!")).
Proof.
  unfold register_mirror, after_mirror, register_finish.
  destruct (firebase_apps cfg); cbn [try_except invoke perform bind run exec].
  - destruct (push_fault f); cbn [try_except bind run exec perform];
      apply run_flash_return.
  - apply run_flash_return.
Qed.

(** The check finds nothing and the store accepts the row. *)
Lemma run_check_fresh cfg f fn e p k w :
  query_fault f = None ->
  commit_fault f = None ->
  first_by_email e (member_table w) = None ->
  run f (register_check cfg fn e p k) w empty_context =
    (flash_result cfg (Redirect "index"),
     after_mirror cfg f (mirror_record fn e p k)
       (set_table (member_table w ++ [mkMember (Some (next_id (member_table w))) fn e p k])
          (log_call (CallCommit [mkMember None fn e p k]) (log_call (CallQuery e) w))),
     mkContext [] (flash_list cfg "success" "Registration successful!")).
Proof.
  intros Hq Hc Hm.
  change (register_check cfg fn e p k) with
    (found <- invoke (QueryFirstByEmail e) ;;
     match found with
     | Some _ => register_duplicate cfg
     | None => perform (SessionAdd (mkMember None fn e p k)) ;;
               invoke SessionCommit ;; register_mirror cfg fn e p k
     end).
  cbn [run bind invoke perform exec]. rewrite Hq, Hm.
  cbn [run bind invoke perform exec session_new empty_context app member_table log_call insert_rows email].
  rewrite Hc, Hm.
  cbn [run bind]. rewrite run_mirror. reflexivity.
Qed.

Lemma after_mirror_table cfg f v w :
  member_table (after_mirror cfg f v w) = member_table w.
Proof.
  unfold after_mirror. destruct (firebase_apps cfg); [|reflexivity].
  destruct (push_fault f); reflexivity.
Qed.


Lemma after_mirror_calls cfg f v w :
  calls (after_mirror cfg f v w) =
  calls w ++ (if firebase_apps cfg then [CallPush "members" v] else []).
Proof.
  unfold after_mirror. destruct (firebase_apps cfg); [|now rewrite app_nil_r].
  destruct (push_fault f); reflexivity.
Qed.

Lemma normalize_email_idem raw :
  normalize_email (normalize_email raw) = normalize_email raw.
Proof.
  unfold normalize_email.
  rewrite (strip_fixed (lower (strip raw))).
  - apply lower_idem.
  - apply lower_trimmed, strip_trimmed.
Qed.

Lemma register_cases cfg f req w :
  register_case cfg f req w (serve cfg f RRegister req w).
Proof.
  unfold serve, view.
  destruct (method req =? "POST") eqn:Hm.
  2:{ unfold register. rewrite Hm. apply rc_get.
      intros H. rewrite H in Hm. discriminate. }
  apply String.eqb_eq in Hm.
  destruct (multidict_get "name" (form req)) as [n|] eqn:Hn.
  2:{ unfold register, form_item. rewrite Hm, Hn. now apply rc_bad_request. }
  destruct (multidict_get "phone" (form req)) as [p|] eqn:Hp.
  2:{ unfold register, form_item. rewrite Hm, Hn, Hp. now apply rc_bad_request. }
  destruct (multidict_get "email" (form req)) as [e|] eqn:He.
  2:{ unfold register, form_item. rewrite Hm, Hn, Hp, He. now apply rc_bad_request. }
  destruct (multidict_get "package" (form req)) as [k|] eqn:Hk.
  2:{ unfold register, form_item. rewrite Hm, Hn, Hp, He, Hk. now apply rc_bad_request. }
  assert (Hs : submits req n e p k) by (repeat split; assumption).
  rewrite (register_submitted cfg req n e p k Hs).
  destruct (query_fault f) as [x|] eqn:Hq.
  { simpl. rewrite Hq. eapply rc_query_fault; eassumption. }
  destruct (first_by_email (normalize_email e) (member_table w)) as [m|] eqn:Hf.
  { erewrite run_check_duplicate by eassumption. eapply rc_duplicate; eassumption. }
  destruct (commit_fault f) as [x|] eqn:Hc.
  { simpl. rewrite Hq, Hf. simpl. rewrite Hc. now apply rc_commit_fault. }
  rewrite run_check_fresh by assumption. now apply rc_success.
Qed.

Lemma submits_unique req n e p k n' e' p' k' :
  submits req n e p k -> submits req n' e' p' k' ->
  n' = n /\ e' = e /\ p' = p /\ k' = k.
Proof.
  intros (_ & Hn & He & Hp & Hk) (_ & Hn' & He' & Hp' & Hk').
  rewrite Hn in Hn'. rewrite He in He'. rewrite Hp in Hp'. rewrite Hk in Hk'.
  repeat split; congruence.
Qed.


(** *** The contact handler *)

Lemma contact_written cfg f req w n e m :
  writes_in req n e m ->
  serve cfg f RContact req w =
    match send_fault f with
    | Some x =>
        (flash_result cfg (Redirect "contact"),
         log_call (CallSend (contact_message cfg n e m)) w,
         mkContext []
           (flash_list cfg "danger" ("Failed to send message: " ++ str x)%string))
    | None =>
        (flash_result cfg (Redirect "contact"),
         add_mail (contact_message cfg n e m)
           (log_call (CallSend (contact_message cfg n e m)) w),
         mkContext [] (flash_list cfg "success" "Message sent successfully."))
    end.
Proof.
  intros (Hm & Hn & He & Hmsg).
  unfold serve, view, contact, form_item, flash, flash_result, flash_list.
  rewrite Hm, Hn, He, Hmsg.
  destruct (secret_key cfg =? ""); simpl; destruct (send_fault f); reflexivity.
Qed.

Example contact_message_note :
  contact_message cfg_on "Sipho" "sipho@example.org" "Hello" =
    mkMessage "New Contact Message - Nkulisa Burials NPC"
      [Some "office@example.org"]
      ("Name: Sipho" ++ nl ++ "Email: sipho@example.org" ++ nl ++ nl ++
       "Message:" ++ nl ++ "Hello" ++ nl)%string.
Proof. reflexivity. Qed.

(** A submission that lacks a field raises inside the [try]: the handler
    reports it like a failed send, and nothing is sent. *)
Lemma contact_missing_field cfg f req w :
  method req = "POST" ->
  (multidict_get "name" (form req) = None \/
   multidict_get "email" (form req) = None \/
   multidict_get "message" (form req) = None) ->
  exists key,
    serve cfg f RContact req w =
      (flash_result cfg (Redirect "contact"), w,
       mkContext []
         (flash_list cfg "danger"
            ("Failed to send message: " ++ str (BadRequestKeyError key))%string)).
Proof.
  intros Hm H.
  unfold serve, view, contact, form_item, flash, flash_result, flash_list.
  rewrite Hm.
  destruct (multidict_get "name" (form req));
    [|exists "name"; destruct (secret_key cfg =? ""); reflexivity].
  destruct (multidict_get "email" (form req));
    [|exists "email"; destruct (secret_key cfg =? ""); reflexivity].
  destruct (multidict_get "message" (form req));
    [|exists "message"; destruct (secret_key cfg =? ""); reflexivity].
  destruct H as [H|[H|H]]; discriminate.
Qed.

Lemma contact_keeps_table cfg f req w :
  member_table (world_of (serve cfg f RContact req w)) = member_table w.
Proof.
  unfold serve, view, contact, form_item, flash.
  destruct (method req =? "POST"); [|reflexivity].
  destruct (secret_key cfg =? "");
    (destruct (multidict_get "name" (form req)); [|reflexivity]);
    (destruct (multidict_get "email" (form req)); [|reflexivity]);
    (destruct (multidict_get "message" (form req)); [|reflexivity]);
    simpl; destruct (send_fault f); reflexivity.
Qed.

(** *** The table invariant *)

Lemma has_email_in_map e rows : has_email e rows <-> In e (map email rows).
Proof.
  unfold has_email. rewrite in_map_iff. split.
  - intros [m [Hin He]]. exists m. auto.
  - intros [m [He Hin]]. exists m. auto.
Qed.

Lemma table_ok_add rows m :
  table_ok rows ->
  first_by_email (email m) rows = None ->
  normalize_email (email m) = email m ->
  table_ok (rows ++ [m]).
Proof.
  intros [Hnd Hnorm] Hfresh Hm. split.
  - rewrite map_app. simpl.
    apply NoDup_app; [exact Hnd|repeat constructor; intros []|].
    intros e' Hin [<-|[]].
    apply first_by_email_absent in Hfresh. apply Hfresh.
    now apply has_email_in_map.
  - apply Forall_app. split; [exact Hnorm|]. now repeat constructor.
Qed.

Lemma register_case_table_ok cfg f req w r :
  register_case cfg f req w r ->
  table_ok (member_table w) -> table_ok (member_table (world_of r)).
Proof.
  intros Hc Hok.
  destruct Hc as [ | | | | | n e p k Hs Hq Hfresh Hc]; try exact Hok.
  unfold world_of. simpl. rewrite after_mirror_table. simpl.
  apply table_ok_add; simpl; [exact Hok|exact Hfresh|apply normalize_email_idem].
Qed.

Lemma serve_table_ok cfg f r req w :
  table_ok (member_table w) ->
  table_ok (member_table (world_of (serve cfg f r req w))).
Proof.
  intros Hok. destruct r; try exact Hok.
  - now rewrite contact_keeps_table.
  - eapply register_case_table_ok; [apply register_cases|exact Hok].
Qed.

Lemma reachable_table_ok w : reachable w -> table_ok (member_table w).
Proof.
  induction 1 as [|cfg f r req w Hw IH].
  - split; constructor.
  - now apply serve_table_ok.
Qed.

Lemma table_ok_normalized_distinct rows :
  table_ok rows -> NoDup (map (fun m => normalize_email (email m)) rows).
Proof.
  intros [Hnd Hnorm].
  rewrite (map_ext_in _ email); [exact Hnd|].
  intros m Hin. rewrite Forall_forall in Hnorm. now apply Hnorm.
Qed.


(* ===================================================================== *)
(** ** The registration workflow *)
(* ===================================================================== *)

(** C1, as the code has it. A submission whose normalized email is not
    yet in the Member Store, with the store answering both calls, appends
    one Member to the store whose [full_name] and [phone] are the submitted
    values trimmed and whose [email] is the submitted value trimmed and
    lower-cased. With a secret key that is not empty the request ends with
    the success outcome (redirect to the index page, the flash
    "Registration successful!"); with an empty one the success flash
    raises after the Member has been stored and the request ends with that
    exception. The instance that follows is the specification's Jane Doe
    submission. *)
Theorem register_fresh_email_creates_member cfg f req w n e p k :
  submits req n e p k ->
  query_fault f = None ->
  commit_fault f = None ->
  ~ has_email (lower (strip e)) (member_table w) ->
  member_table (world_of (serve cfg f RRegister req w)) =
    member_table w ++
      [mkMember (Some (next_id (member_table w)))
         (strip n) (lower (strip e)) (strip p) k] /\
  (secret_key cfg <> "" ->
   result_of (serve cfg f RRegister req w) = Returned (Redirect "index") /\
   flashes (context_of (serve cfg f RRegister req w)) =
     [("success", "Registration successful!")]) /\
  (secret_key cfg = "" ->
   result_of (serve cfg f RRegister req w) = Raised (RuntimeError session_unavailable) /\
   flashes (context_of (serve cfg f RRegister req w)) = []).
Proof.
  intros Hs Hq Hc Hfresh.
  apply first_by_email_absent in Hfresh.
  unfold serve, view. rewrite (register_submitted cfg req n e p k Hs).
  unfold normalize_email.
  rewrite run_check_fresh by assumption.
  unfold result_of, world_of, context_of. simpl.
  rewrite after_mirror_table.
  split; [reflexivity|]. split; intros Hkey.
  - now rewrite flash_result_keyed, flash_list_keyed.
  - now rewrite flash_result_keyless, flash_list_keyless.
Qed.

Lemma jane_fresh_registration :
  submits jane " Jane Doe " " Jane@Example.com " "0712345678" "Gold" /\
  ~ has_email "jane@example.com" (member_table empty_world) /\
  secret_key cfg_on <> "" /\
  result_of (serve cfg_on no_faults RRegister jane empty_world) =
    Returned (Redirect "index") /\
  flashes (context_of (serve cfg_on no_faults RRegister jane empty_world)) =
    [("success", "Registration successful!")] /\
  member_table (world_of (serve cfg_on no_faults RRegister jane empty_world)) =
    [mkMember (Some 1%Z) "Jane Doe" "jane@example.com" "0712345678" "Gold"].
Proof.
  assert (Hs : submits jane " Jane Doe " " Jane@Example.com " "0712345678" "Gold")
    by (repeat split; reflexivity).
  assert (Hfresh : ~ has_email "jane@example.com" (member_table empty_world))
    by (intros [m [[] _]]).
  assert (Hkey : secret_key cfg_on <> "") by discriminate.
  split; [exact Hs|]. split; [exact Hfresh|]. split; [exact Hkey|].
  destruct (register_fresh_email_creates_member cfg_on no_faults jane empty_world
              " Jane Doe " " Jane@Example.com " "0712345678" "Gold"
              Hs eq_refl eq_refl Hfresh) as (Ht & Hon & _).
  destruct (Hon Hkey) as [Hr Hfl].
  split; [exact Hr|]. split; [exact Hfl|exact Ht].
Defined.

(** C1, as stated, fails: with [SECRET_KEY] set to the empty text the new
    email is stored and the row pushed, then the success flash raises; the
    request ends with Flask's exception, not with a success status. *)
Lemma keyless_registration_raises :
  submits jane " Jane Doe " " Jane@Example.com " "0712345678" "Gold" /\
  ~ has_email "jane@example.com" (member_table empty_world) /\
  member_table (world_of (serve cfg_keyless no_faults RRegister jane empty_world)) =
    [jane_row] /\
  result_of (serve cfg_keyless no_faults RRegister jane empty_world) =
    Raised (RuntimeError session_unavailable) /\
  result_of (serve cfg_keyless no_faults RRegister jane empty_world) <>
    Returned (Redirect "index") /\
  flashes (context_of (serve cfg_keyless no_faults RRegister jane empty_world)) = [].
Proof.
  split; [repeat split; reflexivity|]. split; [intros [m [[] _]]|].
  split; [reflexivity|]. split; [reflexivity|]. split; [discriminate|reflexivity].
Qed.

(** The specification's example on any store that lacks the email. *)
Lemma register_jane_doe cfg f w :
  query_fault f = None ->
  commit_fault f = None ->
  ~ has_email "jane@example.com" (member_table w) ->
  exists m,
    member_table (world_of (serve cfg f RRegister jane w)) = member_table w ++ [m] /\
    full_name m = "Jane Doe" /\ email m = "jane@example.com".
Proof.
  intros Hq Hc Hfresh. apply first_by_email_absent in Hfresh.
  unfold serve, view.
  rewrite (register_submitted cfg jane " Jane Doe " " Jane@Example.com " "0712345678" "Gold")
    by (repeat split; reflexivity).
  rewrite run_check_fresh by assumption.
  unfold world_of. simpl. rewrite after_mirror_table. simpl.
  eexists. split; [reflexivity|]. split; reflexivity.
Qed.

(** C2, as the code has it. A submission whose normalized email is the
    email of a Member in the store, whatever the case and the surrounding
    whitespace of the raw value, leaves the Member Store as it was. With a
    secret key that is not empty it ends with the DuplicateEmail outcome
    (redirect back to the form, the flash "Email already registered.");
    with an empty one the flash raises and the request ends with that
    exception. *)
Theorem register_duplicate_email_rejected cfg f req w n e p k :
  submits req n e p k ->
  query_fault f = None ->
  has_email (lower (strip e)) (member_table w) ->
  member_table (world_of (serve cfg f RRegister req w)) = member_table w /\
  (secret_key cfg <> "" ->
   result_of (serve cfg f RRegister req w) = Returned (Redirect "register") /\
   flashes (context_of (serve cfg f RRegister req w)) =
     [("danger", "Email already registered.")]) /\
  (secret_key cfg = "" ->
   result_of (serve cfg f RRegister req w) = Raised (RuntimeError session_unavailable) /\
   flashes (context_of (serve cfg f RRegister req w)) = []).
Proof.
  intros Hs Hq Hdup.
  apply first_by_email_present in Hdup as [m Hm].
  unfold serve, view. rewrite (register_submitted cfg req n e p k Hs).
  unfold normalize_email.
  rewrite (run_check_duplicate cfg f _ _ _ _ w empty_context m Hq Hm).
  unfold result_of, world_of, context_of. simpl.
  split; [reflexivity|]. split; intros Hkey.
  - now rewrite flash_result_keyed, flash_list_keyed.
  - now rewrite flash_result_keyless, flash_list_keyless.
Qed.

Lemma jane_again_rejected :
  submits jane_again "J. Doe" "JANE@EXAMPLE.COM  " "0798765432" "Silver" /\
  has_email "jane@example.com" (member_table jane_world) /\
  secret_key cfg_on <> "" /\
  result_of (serve cfg_on no_faults RRegister jane_again jane_world) =
    Returned (Redirect "register") /\
  flashes (context_of (serve cfg_on no_faults RRegister jane_again jane_world)) =
    [("danger", "Email already registered.")] /\
  member_table (world_of (serve cfg_on no_faults RRegister jane_again jane_world)) =
    [jane_row].
Proof.
  assert (Hs : submits jane_again "J. Doe" "JANE@EXAMPLE.COM  " "0798765432" "Silver")
    by (repeat split; reflexivity).
  assert (Hdup : has_email "jane@example.com" (member_table jane_world))
    by (exists jane_row; split; [left; reflexivity|reflexivity]).
  assert (Hkey : secret_key cfg_on <> "") by discriminate.
  split; [exact Hs|]. split; [exact Hdup|]. split; [exact Hkey|].
  destruct (register_duplicate_email_rejected cfg_on no_faults jane_again jane_world
              "J. Doe" "JANE@EXAMPLE.COM  " "0798765432" "Silver" Hs eq_refl Hdup)
    as (Ht & Hon & _).
  destruct (Hon Hkey) as [Hr Hfl].
  split; [exact Hr|]. split; [exact Hfl|exact Ht].
Defined.

(** C2, as stated, fails: with [SECRET_KEY] set to the empty text the flash
    of the duplicate branch raises, and the request ends with Flask's
    exception instead of the DuplicateEmail outcome. The store is left as
    it was. *)
Lemma keyless_duplicate_raises :
  submits jane_again "J. Doe" "JANE@EXAMPLE.COM  " "0798765432" "Silver" /\
  has_email "jane@example.com" (member_table jane_world) /\
  result_of (serve cfg_keyless no_faults RRegister jane_again jane_world) =
    Raised (RuntimeError session_unavailable) /\
  result_of (serve cfg_keyless no_faults RRegister jane_again jane_world) <>
    Returned (Redirect "register") /\
  flashes (context_of (serve cfg_keyless no_faults RRegister jane_again jane_world)) = [] /\
  member_table (world_of (serve cfg_keyless no_faults RRegister jane_again jane_world)) =
    [jane_row].
Proof.
  split; [repeat split; reflexivity|].
  split; [exists jane_row; split; [left; reflexivity|reflexivity]|].
  split; [reflexivity|]. split; [discriminate|]. split; reflexivity.
Qed.

(** C3, as the code has it. Once the primary write has gone through, the
    new Member stays in the store as written and the request ends the same
    way whatever the mirror does: the result, the flashes and the Member
    table are the same under every state of the Firebase session and every
    behaviour of the push. That end is the success outcome when the secret
    key is not empty, and the exception of the success flash when it is.
    With the session not initialized no push is made and the mirror is left
    alone; a push that raises is caught, one line goes to standard output
    and the mirror is left alone. *)
Theorem mirror_failure_keeps_registration cfg f req w n e p k :
  submits req n e p k ->
  query_fault f = None ->
  commit_fault f = None ->
  ~ has_email (lower (strip e)) (member_table w) ->
  (forall cfg' f',
      secret_key cfg' = secret_key cfg ->
      query_fault f' = None -> commit_fault f' = None ->
      result_of (serve cfg f RRegister req w) = result_of (serve cfg' f' RRegister req w) /\
      flashes (context_of (serve cfg f RRegister req w)) =
        flashes (context_of (serve cfg' f' RRegister req w)) /\
      member_table (world_of (serve cfg f RRegister req w)) =
        member_table (world_of (serve cfg' f' RRegister req w))) /\
  (secret_key cfg <> "" ->
   result_of (serve cfg f RRegister req w) = Returned (Redirect "index")) /\
  (secret_key cfg = "" ->
   result_of (serve cfg f RRegister req w) = Raised (RuntimeError session_unavailable)) /\
  member_table (world_of (serve cfg f RRegister req w)) =
    member_table w ++
      [mkMember (Some (next_id (member_table w)))
         (strip n) (lower (strip e)) (strip p) k] /\
  (firebase_apps cfg = false ->
     (forall path v,
         ~ In (CallPush path v) (calls_since w (world_of (serve cfg f RRegister req w)))) /\
     mirror (world_of (serve cfg f RRegister req w)) = mirror w /\
     stdout (world_of (serve cfg f RRegister req w)) = stdout w) /\
  (forall x,
     firebase_apps cfg = true -> push_fault f = Some x ->
     mirror (world_of (serve cfg f RRegister req w)) = mirror w /\
     stdout (world_of (serve cfg f RRegister req w)) =
       stdout w ++ [("Firebase write error: " ++ str x)%string]).
Proof.
  intros Hs Hq Hc Hfresh.
  apply first_by_email_absent in Hfresh.
  unfold serve, view. rewrite (register_submitted cfg req n e p k Hs).
  unfold normalize_email in *.
  rewrite run_check_fresh by assumption.
  unfold result_of, world_of, context_of. simpl.
  split; [|split; [|split; [|split; [|split]]]].
  - intros cfg' f' Hkey Hq' Hc'.
    rewrite (register_submitted cfg' req n e p k Hs). unfold normalize_email.
    rewrite run_check_fresh by assumption. simpl.
    rewrite !after_mirror_table.
    unfold flash_result, flash_list. rewrite Hkey. auto.
  - intros Hkey. now apply flash_result_keyed.
  - intros Hkey. now apply flash_result_keyless.
  - now rewrite after_mirror_table.
  - intros Hoff. unfold after_mirror. rewrite Hoff. simpl.
    split; [|auto].
    intros path v Hin.
    erewrite calls_since_app in Hin.
    2:{ simpl. rewrite <- app_assoc. reflexivity. }
    simpl in Hin. destruct Hin as [H|[H|[]]]; discriminate.
  - intros x Hon Hx. unfold after_mirror. rewrite Hon, Hx. simpl. auto.
Qed.

Lemma jane_survives_mirror_failure :
  submits jane " Jane Doe " " Jane@Example.com " "0712345678" "Gold" /\
  ~ has_email "jane@example.com" (member_table empty_world) /\
  secret_key cfg_on <> "" /\
  result_of (serve cfg_on mirror_down RRegister jane empty_world) =
    Returned (Redirect "index") /\
  member_table (world_of (serve cfg_on mirror_down RRegister jane empty_world)) =
    [jane_row] /\
  stdout (world_of (serve cfg_on mirror_down RRegister jane empty_world)) =
    ["Firebase write error: connection refused"].
Proof.
  assert (Hs : submits jane " Jane Doe " " Jane@Example.com " "0712345678" "Gold")
    by (repeat split; reflexivity).
  assert (Hfresh : ~ has_email "jane@example.com" (member_table empty_world))
    by (intros [m [[] _]]).
  assert (Hkey : secret_key cfg_on <> "") by discriminate.
  split; [exact Hs|]. split; [exact Hfresh|]. split; [exact Hkey|].
  destruct (mirror_failure_keeps_registration cfg_on mirror_down jane empty_world
              " Jane Doe " " Jane@Example.com " "0712345678" "Gold"
              Hs eq_refl eq_refl Hfresh) as (_ & Hr & _ & Ht & _ & Hraise).
  split; [exact (Hr Hkey)|]. split; [exact Ht|].
  exact (proj2 (Hraise (ServiceError "connection refused") eq_refl eq_refl)).
Defined.

(** C3, as stated, fails: the primary write succeeds and the failing push
    is caught, yet with [SECRET_KEY] set to the empty text the request does
    not end with the success outcome: the success flash, which stands
    outside the [try], raises. *)
Lemma keyless_mirror_failure_raises :
  submits jane " Jane Doe " " Jane@Example.com " "0712345678" "Gold" /\
  ~ has_email "jane@example.com" (member_table empty_world) /\
  member_table (world_of (serve cfg_keyless mirror_down RRegister jane empty_world)) =
    [jane_row] /\
  stdout (world_of (serve cfg_keyless mirror_down RRegister jane empty_world)) =
    ["Firebase write error: connection refused"] /\
  result_of (serve cfg_keyless mirror_down RRegister jane empty_world) =
    Raised (RuntimeError session_unavailable) /\
  result_of (serve cfg_keyless mirror_down RRegister jane empty_world) <>
    Returned (Redirect "index").
Proof.
  split; [repeat split; reflexivity|]. split; [intros [m [[] _]]|].
  split; [reflexivity|]. split; [reflexivity|]. split; [reflexivity|discriminate].
Qed.

(** Serving requests one after the other from the empty store keeps the
    normalized emails of the rows pairwise distinct. *)
Lemma served_store_emails_unique w :
  reachable w ->
  NoDup (map (fun m => normalize_email (email m)) (member_table w)).
Proof.
  intros Hw. apply table_ok_normalized_distinct, reachable_table_ok, Hw.
Qed.

Example busy_store_emails_distinct :
  reachable busy_world /\
  map (fun m => normalize_email (email m)) (member_table busy_world) =
    ["jane@example.com"; "a@b.c"] /\
  NoDup (map (fun m => normalize_email (email m)) (member_table busy_world)).
Proof.
  assert (Hw : reachable busy_world).
  { exact (reach_serve cfg_on mirror_down RRegister blank_form _
             (reach_serve cfg_on no_faults RRegister jane_again _
                (reach_serve cfg_off no_faults RRegister jane _ reach_init))). }
  split; [exact Hw|]. split; [reflexivity|].
  exact (served_store_emails_unique busy_world Hw).
Qed.

(** C7. When the store refuses the primary write for a reason of its own
    (the commit raises, the email being new), the handler catches nothing:
    the exception leaves the view function, nothing is flashed (neither
    success nor duplicate), no Member is added and no push is made. *)
Theorem register_store_failure_propagates cfg f req w n e p k x :
  submits req n e p k ->
  query_fault f = None ->
  ~ has_email (lower (strip e)) (member_table w) ->
  commit_fault f = Some x ->
  result_of (serve cfg f RRegister req w) = Raised x /\
  flashes (context_of (serve cfg f RRegister req w)) = [] /\
  member_table (world_of (serve cfg f RRegister req w)) = member_table w /\
  mirror (world_of (serve cfg f RRegister req w)) = mirror w /\
  calls_since w (world_of (serve cfg f RRegister req w)) =
    [CallQuery (lower (strip e));
     CallCommit [mkMember None (strip n) (lower (strip e)) (strip p) k]].
Proof.
  intros Hs Hq Hfresh Hc.
  apply first_by_email_absent in Hfresh.
  unfold serve, view. rewrite (register_submitted cfg req n e p k Hs).
  unfold normalize_email. simpl. rewrite Hq, Hfresh. simpl. rewrite Hc.
  unfold result_of, world_of, context_of. simpl.
  repeat split.
  apply calls_since_app. simpl. now rewrite <- app_assoc.
Qed.

Lemma jane_store_failure :
  submits jane " Jane Doe " " Jane@Example.com " "0712345678" "Gold" /\
  ~ has_email "jane@example.com" (member_table empty_world) /\
  result_of (serve cfg_on store_down RRegister jane empty_world) =
    Raised (ServiceError "server closed the connection") /\
  flashes (context_of (serve cfg_on store_down RRegister jane empty_world)) = [] /\
  member_table (world_of (serve cfg_on store_down RRegister jane empty_world)) = [].
Proof.
  assert (Hs : submits jane " Jane Doe " " Jane@Example.com " "0712345678" "Gold")
    by (repeat split; reflexivity).
  assert (Hfresh : ~ has_email "jane@example.com" (member_table empty_world))
    by (intros [m [[] _]]).
  split; [exact Hs|]. split; [exact Hfresh|].
  destruct (register_store_failure_propagates cfg_on store_down jane empty_world
              " Jane Doe " " Jane@Example.com " "0712345678" "Gold"
              (ServiceError "server closed the connection")
              Hs eq_refl Hfresh eq_refl) as (Hr & Hfl & Ht & _).
  split; [exact Hr|]. split; [exact Hfl|exact Ht].
Defined.

(** C8, as the code has it. The Member a submission adds to the store has
    [full_name] and [phone] equal to the submitted values trimmed; each is
    non-empty exactly when the submitted value has a character that is not
    whitespace. The handler makes no emptiness check of its own. *)
Theorem persisted_name_and_phone cfg f req w n e p k m :
  submits req n e p k ->
  In m (member_table (world_of (serve cfg f RRegister req w))) ->
  ~ In m (member_table w) ->
  full_name m = strip n /\ phone m = strip p /\
  (full_name m <> "" <-> blank n = false) /\
  (phone m <> "" <-> blank p = false).
Proof.
  intros Hs Hin Hnew.
  assert (Hm : full_name m = strip n /\ phone m = strip p).
  { pose proof (register_cases cfg f req w) as Hc.
    destruct Hc as [ | | | | | n' e' p' k' Hs' Hq Hfresh Hcf];
      unfold world_of in Hin; simpl in Hin; try contradiction.
    rewrite after_mirror_table in Hin. simpl in Hin.
    apply in_app_or in Hin as [Hin|[<-|[]]]; [contradiction|].
    destruct (submits_unique _ _ _ _ _ _ _ _ _ Hs Hs') as (-> & _ & -> & _).
    split; reflexivity. }
  destruct Hm as [Hn Hp]. rewrite Hn, Hp.
  split; [reflexivity|]. split; [reflexivity|].
  split.
  - rewrite strip_empty_iff. destruct (blank n); split; congruence.
  - rewrite strip_empty_iff. destruct (blank p); split; congruence.
Qed.

Lemma jane_persisted_fields :
  submits jane " Jane Doe " " Jane@Example.com " "0712345678" "Gold" /\
  In jane_row (member_table (world_of (serve cfg_on no_faults RRegister jane empty_world))) /\
  ~ In jane_row (member_table empty_world) /\
  full_name jane_row = "Jane Doe" /\ phone jane_row = "0712345678" /\
  full_name jane_row <> "" /\ phone jane_row <> "".
Proof.
  assert (Hs : submits jane " Jane Doe " " Jane@Example.com " "0712345678" "Gold")
    by (repeat split; reflexivity).
  assert (Hin : In jane_row
                  (member_table (world_of (serve cfg_on no_faults RRegister jane empty_world))))
    by (left; reflexivity).
  assert (Hnew : ~ In jane_row (member_table empty_world)) by (intros []).
  split; [exact Hs|]. split; [exact Hin|]. split; [exact Hnew|].
  destruct (persisted_name_and_phone cfg_on no_faults jane empty_world
              " Jane Doe " " Jane@Example.com " "0712345678" "Gold" jane_row
              Hs Hin Hnew) as (Hn & Hp & Hne & Hpe).
  split; [exact Hn|]. split; [exact Hp|].
  split; [apply Hne; reflexivity|apply Hpe; reflexivity].
Defined.

(** C8, as stated, fails: a form whose name is three spaces and whose
    phone is empty is accepted, and the Member it adds has the empty text
    in both fields. *)
Lemma blank_name_and_phone_persisted :
  submits blank_form "   " "a@b.c" "" "Gold" /\
  result_of (serve cfg_on no_faults RRegister blank_form empty_world) =
    Returned (Redirect "index") /\
  member_table (world_of (serve cfg_on no_faults RRegister blank_form empty_world)) =
    [mkMember (Some 1%Z) "" "a@b.c" "" "Gold"] /\
  ~ (forall w, reachable w ->
       forall m, In m (member_table w) -> full_name m <> "" /\ phone m <> "").
Proof.
  split; [repeat split; reflexivity|]. split; [reflexivity|]. split; [reflexivity|].
  intros H.
  destruct (H (world_of (serve cfg_on no_faults RRegister blank_form empty_world))
              (reach_serve _ _ _ _ _ reach_init)
              (mkMember (Some 1%Z) "" "a@b.c" "" "Gold")
              (or_introl eq_refl)) as [Hn _].
  now apply Hn.
Qed.

(** C9. Whenever a registration request makes a push to the mirror, the
    request has added one Member to the store, the push goes to the
    collection ["members"], and the object pushed carries under the keys
    [full_name], [email], [phone] and [package] exactly the fields of that
    Member: the normalized values, not the raw ones. *)
Theorem mirror_copy_equals_member cfg f req w path v :
  In (CallPush path v) (calls_since w (world_of (serve cfg f RRegister req w))) ->
  exists m,
    member_table (world_of (serve cfg f RRegister req w)) = member_table w ++ [m] /\
    path = "members" /\
    v = [("full_name", full_name m); ("email", email m);
         ("phone", phone m); ("package", package m)] /\
    (forall n e p k, submits req n e p k ->
       full_name m = strip n /\ email m = lower (strip e) /\
       phone m = strip p /\ package m = k).
Proof.
  intros Hin.
  pose proof (register_cases cfg f req w) as Hc.
  destruct Hc as [ Hm | key Hk | n e p k x Hs Hq | n e p k m Hs Hq Hf
                 | n e p k x Hs Hq Hf Hcf | n e p k Hs Hq Hf Hcf ];
    unfold world_of in *; simpl in *.
  - unfold calls_since in Hin. rewrite skipn_all in Hin. destruct Hin.
  - unfold calls_since in Hin. rewrite skipn_all in Hin. destruct Hin.
  - rewrite (calls_since_app w _ [CallQuery (normalize_email e)]) in Hin by reflexivity.
    destruct Hin as [H|[]]; discriminate.
  - rewrite (calls_since_app w _ [CallQuery (normalize_email e)]) in Hin by reflexivity.
    destruct Hin as [H|[]]; discriminate.
  - erewrite calls_since_app in Hin.
    2:{ simpl. rewrite <- app_assoc. reflexivity. }
    destruct Hin as [H|[H|[]]]; discriminate.
  - erewrite calls_since_app in Hin.
    2:{ rewrite after_mirror_calls. simpl. rewrite <- !app_assoc. reflexivity. }
    rewrite after_mirror_table. simpl.
    destruct Hin as [H|[H|Hin]]; try discriminate.
    destruct (firebase_apps cfg); [|destruct Hin].
    destruct Hin as [H|[]]. injection H as <- <-.
    eexists. split; [reflexivity|]. split; [reflexivity|]. split; [reflexivity|].
    intros n' e' p' k' Hs'.
    destruct (submits_unique _ _ _ _ _ _ _ _ _ Hs Hs') as (-> & -> & -> & ->).
    simpl. auto.
Qed.

Lemma jane_mirror_copy :
  In (CallPush "members"
        [("full_name", "Jane Doe"); ("email", "jane@example.com");
         ("phone", "0712345678"); ("package", "Gold")])
     (calls_since empty_world (world_of (serve cfg_on no_faults RRegister jane empty_world))) /\
  exists m,
    member_table (world_of (serve cfg_on no_faults RRegister jane empty_world)) = [m] /\
    full_name m = "Jane Doe" /\ email m = "jane@example.com" /\
    phone m = "0712345678" /\ package m = "Gold".
Proof.
  assert (Hin : In (CallPush "members"
        [("full_name", "Jane Doe"); ("email", "jane@example.com");
         ("phone", "0712345678"); ("package", "Gold")])
     (calls_since empty_world (world_of (serve cfg_on no_faults RRegister jane empty_world))))
    by (right; right; left; reflexivity).
  split; [exact Hin|].
  destruct (mirror_copy_equals_member cfg_on no_faults jane empty_world _ _ Hin)
    as (m & Ht & _ & Hv & _).
  exists m. split; [exact Ht|].
  injection Hv as Hn He Hp Hk. auto.
Defined.

(** C10. A registration request that ends with the DuplicateEmail outcome
    (the redirect back to the form) made no push: the existence check is
    the one call it made, and the Member Store and the Mirror Store are as
    they were. *)
Theorem duplicate_outcome_leaves_stores cfg f req w :
  result_of (serve cfg f RRegister req w) = Returned (Redirect "register") ->
  (forall path v,
      ~ In (CallPush path v) (calls_since w (world_of (serve cfg f RRegister req w)))) /\
  (exists e, calls_since w (world_of (serve cfg f RRegister req w)) = [CallQuery e]) /\
  member_table (world_of (serve cfg f RRegister req w)) = member_table w /\
  mirror (world_of (serve cfg f RRegister req w)) = mirror w.
Proof.
  intros Hr.
  pose proof (register_cases cfg f req w) as Hc.
  destruct Hc as [ Hm | key Hk | n e p k x Hs Hq | n e p k m Hs Hq Hf
                 | n e p k x Hs Hq Hf Hcf | n e p k Hs Hq Hf Hcf ];
    unfold result_of, world_of in *; simpl in *; try discriminate.
  2:{ unfold flash_result in Hr. destruct (secret_key cfg =? ""); discriminate. }
  rewrite (calls_since_app w _ [CallQuery (normalize_email e)]) by reflexivity.
  split; [|split; [|split]]; try reflexivity.
  - intros path v [H|[]]. discriminate.
  - now exists (normalize_email e).
Qed.

Lemma jane_again_leaves_stores :
  result_of (serve cfg_on no_faults RRegister jane_again jane_world) =
    Returned (Redirect "register") /\
  calls_since jane_world (world_of (serve cfg_on no_faults RRegister jane_again jane_world)) =
    [CallQuery "jane@example.com"] /\
  member_table (world_of (serve cfg_on no_faults RRegister jane_again jane_world)) =
    member_table jane_world /\
  mirror (world_of (serve cfg_on no_faults RRegister jane_again jane_world)) =
    mirror jane_world.
Proof.
  split; [reflexivity|]. split; [reflexivity|].
  exact (proj2 (proj2 (duplicate_outcome_leaves_stores cfg_on no_faults jane_again jane_world
                         eq_refl))).
Defined.

(* ===================================================================== *)
(** ** The contact workflow *)
(* ===================================================================== *)

(** C6, as the code has it. A contact submission makes exactly one call
    to the mail relay, with the composed message, and never a second one.
    With a secret key that is not empty it is answered by the redirect to
    the contact page: if the send raises, the exception is caught and the
    flash is "Failed to send message: " followed by the text of the
    exception; if the send returns, the flash is "Message sent
    successfully." With an empty secret key the flash raises, in the [try]
    and again in the [except] clause, and the request ends with that
    exception after the one call. *)
Theorem contact_sends_once cfg f req w n e msg :
  writes_in req n e msg ->
  calls_since w (world_of (serve cfg f RContact req w)) =
    [CallSend (contact_message cfg n e msg)] /\
  (forall x, send_fault f = Some x ->
     sent_mail (world_of (serve cfg f RContact req w)) = sent_mail w) /\
  (send_fault f = None ->
     sent_mail (world_of (serve cfg f RContact req w)) =
       sent_mail w ++ [contact_message cfg n e msg]) /\
  (secret_key cfg <> "" ->
   result_of (serve cfg f RContact req w) = Returned (Redirect "contact") /\
   (forall x, send_fault f = Some x ->
      flashes (context_of (serve cfg f RContact req w)) =
        [("danger", ("Failed to send message: " ++ str x)%string)]) /\
   (send_fault f = None ->
      flashes (context_of (serve cfg f RContact req w)) =
        [("success", "Message sent successfully.")])) /\
  (secret_key cfg = "" ->
   result_of (serve cfg f RContact req w) = Raised (RuntimeError session_unavailable) /\
   flashes (context_of (serve cfg f RContact req w)) = []).
Proof.
  intros Hw. rewrite (contact_written cfg f req w n e msg Hw).
  destruct (send_fault f) as [x|]; unfold result_of, world_of, context_of; simpl.
  - split; [now apply calls_since_app|].
    split; [reflexivity|]. split; [discriminate|]. split; intros Hkey.
    + rewrite flash_result_keyed, flash_list_keyed by assumption.
      split; [reflexivity|]. split; [intros y [= <-]; reflexivity|discriminate].
    + now rewrite flash_result_keyless, flash_list_keyless.
  - split; [now apply calls_since_app|].
    split; [discriminate|]. split; [reflexivity|]. split; intros Hkey.
    + rewrite flash_result_keyed, flash_list_keyed by assumption.
      split; [reflexivity|]. split; [discriminate|reflexivity].
    + now rewrite flash_result_keyless, flash_list_keyless.
Qed.

Lemma note_relay_down :
  writes_in note "Sipho" "sipho@example.org" "Hello" /\
  secret_key cfg_on <> "" /\
  calls_since jane_world (world_of (serve cfg_on relay_down RContact note jane_world)) =
    [CallSend (contact_message cfg_on "Sipho" "sipho@example.org" "Hello")] /\
  result_of (serve cfg_on relay_down RContact note jane_world) =
    Returned (Redirect "contact") /\
  flashes (context_of (serve cfg_on relay_down RContact note jane_world)) =
    [("danger", "Failed to send message: authentication failed")].
Proof.
  assert (Hw : writes_in note "Sipho" "sipho@example.org" "Hello")
    by (repeat split; reflexivity).
  assert (Hkey : secret_key cfg_on <> "") by discriminate.
  split; [exact Hw|]. split; [exact Hkey|].
  destruct (contact_sends_once cfg_on relay_down note jane_world
              "Sipho" "sipho@example.org" "Hello" Hw) as (Hc & _ & _ & Hon & _).
  destruct (Hon Hkey) as (Hr & Hx & _).
  split; [exact Hc|]. split; [exact Hr|].
  exact (Hx (ServiceError "authentication failed") eq_refl).
Defined.

(** C6, as stated, fails: with [SECRET_KEY] set to the empty text the
    message is sent, then the success flash raises inside the [try], the
    [except] clause catches it and its own flash raises again: the request
    ends with Flask's exception, neither outcome is returned. *)
Lemma keyless_contact_raises :
  writes_in note "Sipho" "sipho@example.org" "Hello" /\
  sent_mail (world_of (serve cfg_keyless no_faults RContact note jane_world)) =
    [contact_message cfg_keyless "Sipho" "sipho@example.org" "Hello"] /\
  result_of (serve cfg_keyless no_faults RContact note jane_world) =
    Raised (RuntimeError session_unavailable) /\
  result_of (serve cfg_keyless no_faults RContact note jane_world) <>
    Returned (Redirect "contact") /\
  flashes (context_of (serve cfg_keyless no_faults RContact note jane_world)) = [].
Proof.
  split; [repeat split; reflexivity|]. split; [reflexivity|].
  split; [reflexivity|]. split; [discriminate|reflexivity].
Qed.

(* ===================================================================== *)
(** ** Two registrations at the same time *)
(* ===================================================================== *)

Lemma count_email_app e rows rows' :
  count_email e (rows ++ rows') = count_email e rows + count_email e rows'.
Proof. unfold count_email. now rewrite filter_app, length_app. Qed.

Lemma count_email_absent e rows :
  first_by_email e rows = None -> count_email e rows = 0.
Proof.
  unfold first_by_email, count_email. induction rows as [|m rows IH]; simpl; [reflexivity|].
  destruct (email m =? e); [discriminate|exact IH].
Qed.

Lemma count_email_found e rows m :
  first_by_email e rows = Some m -> 1 <= count_email e rows.
Proof.
  unfold first_by_email, count_email. induction rows as [|a rows IH]; simpl; [discriminate|].
  destruct (email a =? e); simpl; [lia|exact IH].
Qed.

Lemma key_test cfg : secret_key cfg <> "" -> (secret_key cfg =? "") = false.
Proof.
  intros H. destruct (secret_key cfg =? "") eqn:E; [|reflexivity].
  apply String.eqb_eq in E. contradiction.
Qed.

(** An operation that is not one on the store leaves the table as it is
    and logs no store call. *)
Lemma quiet_exec f X (c : cmd X) w cx :
  store_op c = false ->
  member_table (snd (fst (exec f c w cx))) = member_table w /\
  exists d,
    calls (snd (fst (exec f c w cx))) = calls w ++ d /\ store_calls d = [].
Proof.
  destruct c; simpl; try discriminate; intros _.
  - destruct (push_fault f); simpl; (split; [reflexivity|]); eexists; split; reflexivity.
  - destruct (send_fault f); simpl; (split; [reflexivity|]); eexists; split; reflexivity.
  - split; [reflexivity|]. exists []. now rewrite app_nil_r.
  - split; [reflexivity|]. exists []. now rewrite app_nil_r.
Qed.

Lemma ends_in_mirror cfg fn e p k :
  secret_key cfg <> "" ->
  ends_in (Redirect "index") (register_mirror cfg fn e p k).
Proof.
  intros Hkey. unfold register_mirror, register_finish, flash.
  rewrite (key_test cfg Hkey).
  destruct (firebase_apps cfg); simpl.
  - split; [reflexivity|]. intros [[]|x]; simpl.
    + split; [reflexivity|]. intros []. reflexivity.
    + split; [reflexivity|]. intros []. simpl.
      split; [reflexivity|]. intros []. reflexivity.
  - split; [reflexivity|]. intros []. reflexivity.
Qed.

Lemma within_mirror cfg fn e p k : within 3 (register_mirror cfg fn e p k).
Proof.
  unfold register_mirror, register_finish, flash.
  destruct (secret_key cfg =? ""); destruct (firebase_apps cfg); simpl;
    try exact I;
    try (intros [[]|x]; simpl; try exact I; intros []; simpl; auto);
    try (intros []; exact I).
Qed.

Lemma within_check cfg fn e p k : within 6 (register_check cfg fn e p k).
Proof.
  simpl. intros [[m|]|x]; simpl; [| |exact I].
  - unfold register_duplicate, flash.
    destruct (secret_key cfg =? ""); simpl; [exact I|]. intros []. exact I.
  - intros [] [[]|x]; simpl; [|exact I].
    apply within_mirror.
Qed.

(** One operation of a registration: the phase it moves to and what it
    does to the shared state. *)
Lemma step_phase cfg fn e p k ph t w :
  secret_key cfg <> "" ->
  at_phase cfg fn e p k ph t ->
  exists ph',
    at_phase cfg fn e p k ph' (fst (step_thread t w)) /\
    transition e (mkMember None fn e p k) ph ph' w (snd (step_thread t w)).
Proof.
  intros Hkey. destruct t as [c cx f]. unfold at_phase. simpl.
  intros [[Hq Hc] Hph].
  assert (Hquiet_same : forall ph0, settled ph0 = true \/ ph0 = Won ->
            transition e (mkMember None fn e p k) ph0 ph0 w w).
  { intros ph0 H0. apply (tr_quiet _ _ ph0 w w []); auto. now rewrite app_nil_r. }
  destruct ph.
  - (* Checking *)
    destruct Hph as [-> ->]. unfold step_thread. simpl. rewrite Hq.
    destruct (first_by_email e (member_table w)) as [r|] eqn:Hf; simpl.
    + exists Duplicate. simpl.
      split; [split; [split; assumption|left; split; reflexivity]|].
      eapply tr_found; eassumption.
    + exists Adding. simpl.
      split; [split; [split; assumption|split; reflexivity]|].
      now apply tr_pass.
  - (* Adding *)
    destruct Hph as [-> ->]. unfold step_thread. simpl.
    exists Committing. simpl.
    split; [split; [split; assumption|split; reflexivity]|].
    apply tr_add.
  - (* Committing *)
    destruct Hph as [-> ->]. unfold step_thread. simpl. rewrite Hc. simpl.
    destruct (first_by_email e (member_table w)) as [r|] eqn:Hf; simpl.
    + exists Refused. simpl.
      split; [split; [split; assumption|split; reflexivity]|].
      eapply tr_refuse; eassumption.
    + exists Won. simpl.
      split; [split; [split; assumption|now apply ends_in_mirror]|].
      now apply tr_commit.
  - (* Won *)
    exists Won. unfold step_thread. simpl.
    destruct c as [a|x|X c kont]; simpl in *.
    + split; [split; [split; assumption|assumption]|]. apply Hquiet_same. now right.
    + destruct Hph.
    + destruct Hph as [Hquiet Hkont].
      destruct (quiet_exec f X c w cx Hquiet) as (Ht & d & Hd & Hsd).
      destruct (exec f c w cx) as [[x w1] cx1]. simpl in *.
      split; [split; [split; assumption|apply Hkont]|].
      apply (tr_quiet _ _ Won w w1 d); auto.
  - (* Duplicate *)
    exists Duplicate. unfold step_thread. simpl.
    destruct Hph as [[-> Hfl]|[-> Hfl]].
    + unfold register_duplicate, flash. rewrite (key_test cfg Hkey). simpl.
      split; [split; [split; assumption|right; split; [reflexivity|now rewrite Hfl]]|].
      apply Hquiet_same. now left.
    + simpl.
      split; [split; [split; assumption|right; split; [reflexivity|assumption]]|].
      apply Hquiet_same. now left.
  - (* Refused *)
    destruct Hph as [-> Hfl]. exists Refused. unfold step_thread. simpl.
    split; [split; [split; assumption|split; [reflexivity|assumption]]|].
    apply Hquiet_same. now left.
Qed.

(** How a finished registration has ended, by its phase. *)
Lemma finished_phase cfg fn e p k ph t :
  secret_key cfg <> "" ->
  at_phase cfg fn e p k ph t ->
  finished t = true ->
  (ph = Won /\ final t = Some (Returned (Redirect "index"))) \/
  (ph = Duplicate /\ duplicate_end t) \/
  (ph = Refused /\ refused_end t).
Proof.
  intros Hkey. destruct t as [c cx f].
  unfold at_phase, finished, duplicate_end, refused_end, final. simpl.
  intros [_ Hph] Hfin.
  destruct ph.
  - destruct Hph as [Hc _]. subst c. discriminate.
  - destruct Hph as [Hc _]. subst c. discriminate.
  - destruct Hph as [Hc _]. subst c. discriminate.
  - left. destruct c; simpl in *; try discriminate; [subst; auto|destruct Hph].
  - right. left. destruct Hph as [[Hc Hfl]|[Hc Hfl]]; subst c.
    + unfold register_duplicate, flash in Hfin. rewrite (key_test cfg Hkey) in Hfin.
      discriminate.
    + auto.
  - right. right. destruct Hph as [Hc Hfl]. subst c. auto.
Qed.

Lemma store_trace_swap e m1 m2 ph1 ph2 :
  store_trace e m1 m2 ph1 ph2 = store_trace e m2 m1 ph2 ph1.
Proof. destruct ph1, ph2; reflexivity. Qed.

Lemma compatible_swap ph1 ph2 : compatible ph1 ph2 = compatible ph2 ph1.
Proof. destruct ph1, ph2; reflexivity. Qed.

Lemma race_inv_swap cfg fn1 p1 k1 fn2 p2 k2 e w0 ph1 ph2 t1 t2 w :
  race_inv cfg fn1 p1 k1 fn2 p2 k2 e w0 ph1 ph2 (t1, t2, w) ->
  race_inv cfg fn2 p2 k2 fn1 p1 k1 e w0 ph2 ph1 (t2, t1, w).
Proof.
  unfold race_inv, thread1, thread2, shared. simpl.
  intros (H1 & H2 & Hcompat & Hcount & d & Hcalls & Htrace).
  split; [exact H2|]. split; [exact H1|].
  split; [now rewrite compatible_swap|]. split; [lia|].
  exists d. split; [exact Hcalls|]. now rewrite store_trace_swap.
Qed.

Lemma store_calls_app l l' : store_calls (l ++ l') = store_calls l ++ store_calls l'.
Proof. apply filter_app. Qed.

(** The first request performs an operation: the invariant goes on. *)
Lemma race_step1 cfg fn1 p1 k1 fn2 p2 k2 e w0 ph1 ph2 t1 t2 w :
  secret_key cfg <> "" ->
  race_inv cfg fn1 p1 k1 fn2 p2 k2 e w0 ph1 ph2 (t1, t2, w) ->
  exists ph1',
    race_inv cfg fn1 p1 k1 fn2 p2 k2 e w0 ph1' ph2
      (fst (step_thread t1 w), t2, snd (step_thread t1 w)).
Proof.
  unfold race_inv, thread1, thread2, shared. simpl.
  intros Hkey (H1 & H2 & Hcompat & Hcount & d & Hcalls & Htrace).
  destruct (step_phase cfg fn1 e p1 k1 ph1 t1 w Hkey H1) as (ph1' & H1' & Htr).
  exists ph1'. split; [exact H1'|]. split; [exact H2|].
  remember (snd (step_thread t1 w)) as w' eqn:Ew. clear Ew H1 H1' H2.
  destruct Htr as [w Hf|w r Hf|w|w Hf|w r Hf|ph w w' dq Hph Ht Hc Hdq].
  - (* the check finds nothing *)
    rewrite (count_email_absent _ _ Hf) in Hcount.
    destruct ph2; simpl in *; try discriminate;
      (split; [reflexivity|]; split; [rewrite (count_email_absent _ _ Hf); reflexivity|];
       exists (d ++ [CallQuery e]); split; [rewrite Hcalls; now rewrite app_assoc|];
       rewrite store_calls_app, Htrace; reflexivity).
  - (* the check finds the row *)
    pose proof (count_email_found _ _ _ Hf) as Hone.
    destruct ph2; simpl in *; try discriminate; try lia.
    split; [reflexivity|]. split; [exact Hcount|].
    exists (d ++ [CallQuery e]). split; [rewrite Hcalls; now rewrite app_assoc|].
    rewrite store_calls_app, Htrace. reflexivity.
  - (* the object goes into the session *)
    split; [destruct ph2; exact Hcompat|]. split; [exact Hcount|].
    exists d. split; [exact Hcalls|]. rewrite Htrace. destruct ph2; reflexivity.
  - (* the commit goes through *)
    rewrite (count_email_absent _ _ Hf) in Hcount.
    destruct ph2; simpl in *; try discriminate;
      (split; [reflexivity|];
       split; [rewrite count_email_app, (count_email_absent _ _ Hf);
               unfold count_email; simpl; rewrite String.eqb_refl; reflexivity|];
       exists (d ++ [CallCommit [mkMember None fn1 e p1 k1]]);
       split; [rewrite Hcalls; now rewrite app_assoc|];
       rewrite store_calls_app, Htrace; reflexivity).
  - (* the commit is refused *)
    pose proof (count_email_found _ _ _ Hf) as Hone.
    destruct ph2; simpl in *; try discriminate; try lia.
    split; [reflexivity|]. split; [exact Hcount|].
    exists (d ++ [CallCommit [mkMember None fn1 e p1 k1]]).
    split; [rewrite Hcalls; now rewrite app_assoc|].
    rewrite store_calls_app, Htrace. reflexivity.
  - (* an operation past the store *)
    split; [exact Hcompat|]. split; [now rewrite Ht|].
    exists (d ++ dq). split; [rewrite Hc, Hcalls; now rewrite app_assoc|].
    rewrite store_calls_app, Htrace, Hdq. apply app_nil_r.
Qed.

Lemma race_step2 cfg fn1 p1 k1 fn2 p2 k2 e w0 ph1 ph2 t1 t2 w :
  secret_key cfg <> "" ->
  race_inv cfg fn1 p1 k1 fn2 p2 k2 e w0 ph1 ph2 (t1, t2, w) ->
  exists ph2',
    race_inv cfg fn1 p1 k1 fn2 p2 k2 e w0 ph1 ph2'
      (t1, fst (step_thread t2 w), snd (step_thread t2 w)).
Proof.
  intros Hkey Hinv. apply race_inv_swap in Hinv.
  destruct (race_step1 _ _ _ _ _ _ _ _ _ _ _ _ _ _ Hkey Hinv) as [ph2' Hinv'].
  exists ph2'. now apply race_inv_swap.
Qed.

(** The invariant holds along every schedule. *)
Lemma race_inv_interleave cfg fn1 p1 k1 fn2 p2 k2 e w0 sched :
  secret_key cfg <> "" ->
  forall ph1 ph2 t1 t2 w,
    race_inv cfg fn1 p1 k1 fn2 p2 k2 e w0 ph1 ph2 (t1, t2, w) ->
    exists ph1' ph2',
      race_inv cfg fn1 p1 k1 fn2 p2 k2 e w0 ph1' ph2' (interleave sched t1 t2 w).
Proof.
  intros Hkey.
  induction sched as [|b sched IH]; intros ph1 ph2 t1 t2 w Hinv.
  - exists ph1, ph2. exact Hinv.
  - destruct b; simpl.
    + destruct (race_step2 _ _ _ _ _ _ _ _ _ _ _ _ _ _ Hkey Hinv) as [ph2' Hinv'].
      destruct (step_thread t2 w) as [t2' w1]. simpl in Hinv'.
      exact (IH _ _ _ _ _ Hinv').
    + destruct (race_step1 _ _ _ _ _ _ _ _ _ _ _ _ _ _ Hkey Hinv) as [ph1' Hinv'].
      destruct (step_thread t1 w) as [t1' w1]. simpl in Hinv'.
      exact (IH _ _ _ _ _ Hinv').
Qed.

(** *** Every fair schedule lets both requests end *)

Lemma step_within n t w :
  within n (code t) -> within (pred n) (code (fst (step_thread t w))).
Proof.
  destruct t as [c cx f]. unfold step_thread. simpl.
  destruct c as [a|x|X c kont]; simpl; [auto|auto|].
  destruct n as [|n]; [intros []|]. intros H.
  destruct (exec f c w cx) as [[x w1] cx1]. simpl. apply H.
Qed.

Lemma within_0_finished t : within 0 (code t) -> finished t = true.
Proof.
  unfold finished. destruct (code t); simpl; [reflexivity|reflexivity|intros []].
Qed.

Lemma interleave_finishes sched :
  forall n1 n2 t1 t2 w,
    within n1 (code t1) -> within n2 (code t2) ->
    n1 <= turns false sched -> n2 <= turns true sched ->
    finished (thread1 (interleave sched t1 t2 w)) = true /\
    finished (thread2 (interleave sched t1 t2 w)) = true.
Proof.
  induction sched as [|b sched IH]; intros n1 n2 t1 t2 w H1 H2 Hn1 Hn2.
  - simpl in *. assert (n1 = 0) as -> by lia. assert (n2 = 0) as -> by lia.
    split; now apply within_0_finished.
  - destruct b; simpl in *.
    + pose proof (step_within n2 t2 w H2) as H2'.
      destruct (step_thread t2 w) as [t2' w1]. simpl in H2'.
      apply (IH n1 (pred n2)); auto; lia.
    + pose proof (step_within n1 t1 w H1) as H1'.
      destruct (step_thread t1 w) as [t1' w1]. simpl in H1'.
      apply (IH (pred n1) n2); auto; lia.
Qed.

(** A thread that is given the processor alone does what [run] does. *)
Lemma interleave_alone sched :
  forall t1 t2 w,
    Forall (fun b => b = false) sched ->
    within (List.length sched) (code t1) ->
    final (thread1 (interleave sched t1 t2 w)) =
      Some (result_of (run (env t1) (code t1) w (ctx t1))) /\
    shared (interleave sched t1 t2 w) = world_of (run (env t1) (code t1) w (ctx t1)) /\
    ctx (thread1 (interleave sched t1 t2 w)) =
      context_of (run (env t1) (code t1) w (ctx t1)).
Proof.
  induction sched as [|b sched IH]; intros [c cx f] t2 w Hall Hn; simpl in *.
  - unfold final. simpl. destruct c; simpl in *; [auto|auto|destruct Hn].
  - inversion Hall as [|? ? Hb Hall']; subst.
    unfold step_thread. simpl.
    destruct c as [a|x|X c kont]; simpl in *.
    + apply (IH (mkThread (Ret a) cx f) t2 w Hall' I).
    + apply (IH (mkThread (Raise x) cx f) t2 w Hall' I).
    + specialize (Hn (fst (fst (exec f c w cx)))).
      destruct (exec f c w cx) as [[x w1] cx1]. simpl in *.
      apply (IH (mkThread (kont x) cx1 f) t2 w1 Hall' Hn).
Qed.

(** C5, as the code has it. Two registrations of the same normalized
    email, new to the store, served together under any schedule that gives
    each at least six turns, with the store answering and a secret key
    that is not empty: both end; the table then holds exactly one row with
    that email; the request that wrote it ends with the success outcome
    and the other loses. Which way it loses goes with the order of the
    store calls: if its existence check came after the winner's commit
    (query, commit, query) it ends with the DuplicateEmail outcome; if
    both checks came before either commit (query, query, commit, commit)
    its own commit is refused by the unique constraint and that exception
    leaves the handler as it is, with no redirect and nothing flashed. *)
Theorem racing_registrations_one_member
    cfg f1 f2 req1 req2 n1 e1 p1 k1 n2 e2 p2 k2 w sched :
  secret_key cfg <> "" ->
  submits req1 n1 e1 p1 k1 ->
  submits req2 n2 e2 p2 k2 ->
  lower (strip e1) = lower (strip e2) ->
  ~ has_email (lower (strip e1)) (member_table w) ->
  healthy f1 -> healthy f2 ->
  6 <= turns false sched -> 6 <= turns true sched ->
  finished (thread1 (race cfg f1 f2 req1 req2 sched w)) = true /\
  finished (thread2 (race cfg f1 f2 req1 req2 sched w)) = true /\
  count_email (lower (strip e1)) (member_table (shared (race cfg f1 f2 req1 req2 sched w))) = 1 /\
  ((final (thread1 (race cfg f1 f2 req1 req2 sched w)) = Some (Returned (Redirect "index")) /\
    ((duplicate_end (thread2 (race cfg f1 f2 req1 req2 sched w)) /\
      store_calls (calls_since w (shared (race cfg f1 f2 req1 req2 sched w))) =
        [CallQuery (lower (strip e1));
         CallCommit [mkMember None (strip n1) (lower (strip e1)) (strip p1) k1];
         CallQuery (lower (strip e1))]) \/
     (refused_end (thread2 (race cfg f1 f2 req1 req2 sched w)) /\
      store_calls (calls_since w (shared (race cfg f1 f2 req1 req2 sched w))) =
        [CallQuery (lower (strip e1)); CallQuery (lower (strip e1));
         CallCommit [mkMember None (strip n1) (lower (strip e1)) (strip p1) k1];
         CallCommit [mkMember None (strip n2) (lower (strip e1)) (strip p2) k2]]))) \/
   (final (thread2 (race cfg f1 f2 req1 req2 sched w)) = Some (Returned (Redirect "index")) /\
    ((duplicate_end (thread1 (race cfg f1 f2 req1 req2 sched w)) /\
      store_calls (calls_since w (shared (race cfg f1 f2 req1 req2 sched w))) =
        [CallQuery (lower (strip e1));
         CallCommit [mkMember None (strip n2) (lower (strip e1)) (strip p2) k2];
         CallQuery (lower (strip e1))]) \/
     (refused_end (thread1 (race cfg f1 f2 req1 req2 sched w)) /\
      store_calls (calls_since w (shared (race cfg f1 f2 req1 req2 sched w))) =
        [CallQuery (lower (strip e1)); CallQuery (lower (strip e1));
         CallCommit [mkMember None (strip n2) (lower (strip e1)) (strip p2) k2];
         CallCommit [mkMember None (strip n1) (lower (strip e1)) (strip p1) k1]])))).
Proof.
  intros Hkey Hs1 Hs2 He Hfresh Hf1 Hf2 Ht1 Ht2.
  unfold race.
  rewrite (register_submitted cfg req1 n1 e1 p1 k1 Hs1).
  rewrite (register_submitted cfg req2 n2 e2 p2 k2 Hs2).
  unfold normalize_email. rewrite <- He.
  set (e := lower (strip e1)) in *.
  set (t1 := start (register_check cfg (strip n1) e (strip p1) k1) f1).
  set (t2 := start (register_check cfg (strip n2) e (strip p2) k2) f2).
  destruct (interleave_finishes sched 6 6 t1 t2 w) as [Hfin1 Hfin2];
    try assumption; try apply within_check.
  assert (Hinit : race_inv cfg (strip n1) (strip p1) k1 (strip n2) (strip p2) k2 e w
                    Checking Checking (t1, t2, w)).
  { unfold race_inv, at_phase, thread1, thread2, shared. simpl.
    apply first_by_email_absent in Hfresh.
    rewrite (count_email_absent _ _ Hfresh).
    split; [split; [exact Hf1|split; reflexivity]|].
    split; [split; [exact Hf2|split; reflexivity]|].
    split; [reflexivity|]. split; [reflexivity|].
    exists []. split; [now rewrite app_nil_r|reflexivity]. }
  destruct (race_inv_interleave _ _ _ _ _ _ _ _ _ sched Hkey _ _ _ _ _ Hinit)
    as (ph1 & ph2 & H1 & H2 & Hcompat & Hcount & d & Hcalls & Htrace).
  rewrite (calls_since_app _ _ _ Hcalls).
  destruct (finished_phase _ _ _ _ _ _ _ Hkey H1 Hfin1) as [[-> Hw1]|[[-> Hl1]|[-> Hl1]]];
  destruct (finished_phase _ _ _ _ _ _ _ Hkey H2 Hfin2) as [[-> Hw2]|[[-> Hl2]|[-> Hl2]]];
    simpl in Hcompat; try discriminate;
    (split; [assumption|]; split; [assumption|]; split; [exact Hcount|]).
  - left. split; [exact Hw1|]. left. split; [exact Hl2|exact Htrace].
  - left. split; [exact Hw1|]. right. split; [exact Hl2|exact Htrace].
  - right. split; [exact Hw2|]. left. split; [exact Hl1|exact Htrace].
  - right. split; [exact Hw2|]. right. split; [exact Hl1|exact Htrace].
Qed.

Lemma racing_janes :
  secret_key cfg_on <> "" /\
  submits jane " Jane Doe " " Jane@Example.com " "0712345678" "Gold" /\
  submits jane_again "J. Doe" "JANE@EXAMPLE.COM  " "0798765432" "Silver" /\
  lower (strip " Jane@Example.com ") = lower (strip "JANE@EXAMPLE.COM  ") /\
  ~ has_email "jane@example.com" (member_table empty_world) /\
  6 <= turns false both_check_first /\ 6 <= turns true both_check_first /\
  finished (thread1 race_jane) = true /\
  finished (thread2 race_jane) = true /\
  count_email "jane@example.com" (member_table (shared race_jane)) = 1.
Proof.
  assert (Hkey : secret_key cfg_on <> "") by discriminate.
  assert (Hs1 : submits jane " Jane Doe " " Jane@Example.com " "0712345678" "Gold")
    by (repeat split; reflexivity).
  assert (Hs2 : submits jane_again "J. Doe" "JANE@EXAMPLE.COM  " "0798765432" "Silver")
    by (repeat split; reflexivity).
  assert (Hfresh : ~ has_email "jane@example.com" (member_table empty_world))
    by (intros [m [[] _]]).
  assert (Ht1 : 6 <= turns false both_check_first) by (vm_compute; lia).
  assert (Ht2 : 6 <= turns true both_check_first) by (vm_compute; lia).
  split; [exact Hkey|].
  split; [exact Hs1|]. split; [exact Hs2|]. split; [reflexivity|].
  split; [exact Hfresh|]. split; [exact Ht1|]. split; [exact Ht2|].
  destruct (racing_registrations_one_member cfg_on no_faults no_faults jane jane_again
              " Jane Doe " " Jane@Example.com " "0712345678" "Gold"
              "J. Doe" "JANE@EXAMPLE.COM  " "0798765432" "Silver"
              empty_world both_check_first
              Hkey Hs1 Hs2 eq_refl Hfresh (conj eq_refl eq_refl) (conj eq_refl eq_refl)
              Ht1 Ht2) as (Hfin1 & Hfin2 & Hcount & _).
  split; [exact Hfin1|]. split; [exact Hfin2|exact Hcount].
Defined.

(** The two ways to lose, on Jane's two submissions: checked too late, and
    refused at the commit. *)
Example race_jane_late_duplicate :
  final (thread1 race_jane_late) = Some (Returned (Redirect "index")) /\
  duplicate_end (thread2 race_jane_late) /\
  store_calls (calls_since empty_world (shared race_jane_late)) =
    [CallQuery "jane@example.com";
     CallCommit [mkMember None "Jane Doe" "jane@example.com" "0712345678" "Gold"];
     CallQuery "jane@example.com"].
Proof. repeat split. Qed.

Example race_jane_refused :
  final (thread1 race_jane) = Some (Returned (Redirect "index")) /\
  refused_end (thread2 race_jane) /\
  store_calls (calls_since empty_world (shared race_jane)) =
    [CallQuery "jane@example.com"; CallQuery "jane@example.com";
     CallCommit [mkMember None "Jane Doe" "jane@example.com" "0712345678" "Gold"];
     CallCommit [mkMember None "J. Doe" "jane@example.com" "0798765432" "Silver"]].
Proof. repeat split. Qed.

(** With [SECRET_KEY] set to the empty text the same race still leaves one
    row, and neither request gets a success: the writer ends with the
    exception of its flash, the other with that of the store. *)
Example race_jane_keyless :
  count_email "jane@example.com"
    (member_table
       (shared (race cfg_keyless no_faults no_faults jane jane_again
                  both_check_first empty_world))) = 1 /\
  final (thread1 (race cfg_keyless no_faults no_faults jane jane_again
                    both_check_first empty_world)) =
    Some (Raised (RuntimeError session_unavailable)) /\
  final (thread2 (race cfg_keyless no_faults no_faults jane jane_again
                    both_check_first empty_world)) =
    Some (Raised (IntegrityError "member.email")).
Proof. repeat split. Qed.

(** C5, as stated, fails: when both requests pass the existence check
    before either commits, the second commit is refused by the unique
    constraint and the exception leaves the handler. The loser gets no
    DuplicateEmail outcome: no redirect back to the form, nothing flashed. *)
Lemma race_loser_gets_integrity_error :
  firstn 3 (calls (shared race_jane)) =
    [CallQuery "jane@example.com"; CallQuery "jane@example.com";
     CallCommit [mkMember None "Jane Doe" "jane@example.com" "0712345678" "Gold"]] /\
  final (thread1 race_jane) = Some (Returned (Redirect "index")) /\
  final (thread2 race_jane) = Some (Raised (IntegrityError "member.email")) /\
  final (thread2 race_jane) <> Some (Returned (Redirect "register")) /\
  flashes (ctx (thread2 race_jane)) = [] /\
  member_table (shared race_jane) = [jane_row].
Proof.
  repeat split; try reflexivity. discriminate.
Qed.

(* ===================================================================== *)
(** ** Any number of requests: the table invariant *)
(* ===================================================================== *)

(** The unique constraint: whatever is flushed, emails stay distinct, and
    normalized if the flushed objects are. *)
Lemma insert_rows_table_ok pending :
  forall rows rows',
    Forall (fun m => normalize_email (email m) = email m) pending ->
    table_ok rows ->
    insert_rows pending rows = Returned rows' ->
    table_ok rows'.
Proof.
  induction pending as [|m pending IH]; intros rows rows' Hp Hok; simpl.
  - intros [= <-]. exact Hok.
  - inversion Hp as [|? ? Hm Hp']; subst.
    destruct (first_by_email (email m) rows) as [r|] eqn:Hf; [discriminate|].
    apply IH; [exact Hp'|].
    apply (table_ok_add rows (with_id (next_id rows) m)); simpl; assumption.
Qed.

Lemma step_thread_ok t w :
  table_ok (member_table w) -> thread_ok t ->
  table_ok (member_table (snd (step_thread t w))) /\
  thread_ok (fst (step_thread t w)).
Proof.
  destruct t as [c cx f]. unfold thread_ok, step_thread. simpl.
  intros Hok [Hs Hc].
  destruct c as [a|x|X c kont]; simpl in *; [auto|auto|].
  destruct Hc as [Hadd Hk].
  destruct c; simpl in *.
  - destruct (query_fault f); simpl; auto.
  - split; [exact Hok|]. split; [|apply Hk].
    apply Forall_app. split; [exact Hs|]. now repeat constructor.
  - destruct (commit_fault f); simpl; [auto|].
    destruct (insert_rows (session_new cx) (member_table w)) as [rows|x] eqn:Hi; simpl.
    + split; [eapply insert_rows_table_ok; eassumption|]. split; [constructor|apply Hk].
    + auto.
  - destruct (push_fault f); simpl; auto.
  - destruct (send_fault f); simpl; auto.
  - auto.
  - auto.
Qed.

Lemma flash_return_adds_normalized cfg msg cat r :
  adds_normalized (flash cfg msg cat ;; Ret r).
Proof.
  unfold flash. destruct (secret_key cfg =? ""); simpl; [exact I|].
  split; [exact I|]. intros []. exact I.
Qed.

Lemma register_adds_normalized cfg req : adds_normalized (register cfg req).
Proof.
  unfold register, form_item.
  destruct (method req =? "POST"); [|exact I].
  destruct (multidict_get "name" (form req)) as [n|]; [|exact I].
  destruct (multidict_get "phone" (form req)) as [p|]; [|exact I].
  destruct (multidict_get "email" (form req)) as [e|]; [|exact I].
  destruct (multidict_get "package" (form req)) as [k|]; [|exact I].
  cbn [bind invoke adds_normalized adds_ok].
  split; [exact I|]. intros [[m|]|x]; cbn [bind]; [| |exact I].
  - apply flash_return_adds_normalized.
  - cbn [bind perform invoke adds_normalized adds_ok email].
    split; [apply normalize_email_idem|]. intros [].
    split; [exact I|]. intros [[]|x]; cbn [bind]; [|exact I].
    destruct (firebase_apps cfg); cbn [try_except invoke bind adds_normalized adds_ok].
    + split; [exact I|]. intros [[]|x]; cbn [try_except bind perform adds_normalized adds_ok].
      * apply flash_return_adds_normalized.
      * split; [exact I|]. intros []. apply flash_return_adds_normalized.
    + apply flash_return_adds_normalized.
Qed.

Lemma contact_adds_normalized cfg req : adds_normalized (contact cfg req).
Proof.
  unfold contact, form_item, flash.
  destruct (method req =? "POST"); [|exact I].
  destruct (secret_key cfg =? "");
    destruct (multidict_get "name" (form req)) as [n|];
    destruct (multidict_get "email" (form req)) as [e|];
    destruct (multidict_get "message" (form req)) as [m|];
    simpl;
    repeat first [ exact I | split | intros [] | progress simpl ].
Qed.

Lemma view_thread_ok cfg f r req : thread_ok (start (view cfg r req) f).
Proof.
  split; [constructor|]. simpl.
  destruct r; simpl; try exact I.
  - apply contact_adds_normalized.
  - apply register_adds_normalized.
Qed.

Lemma in_flight_ok ts w :
  in_flight ts w -> table_ok (member_table w) /\ Forall thread_ok ts.
Proof.
  induction 1 as [|cfg f r req ts w H [IHw IHts]|ts1 t ts2 w H [IHw IHts]].
  - split; [split; constructor|constructor].
  - split; [exact IHw|]. constructor; [apply view_thread_ok|exact IHts].
  - apply Forall_app in IHts as [H1 H2].
    inversion H2 as [|? ? Ht H2']; subst.
    destruct (step_thread_ok t w IHw Ht) as [Hw' Ht'].
    split; [exact Hw'|]. apply Forall_app. split; [exact H1|].
    constructor; assumption.
Qed.

(** A request in progress may be run to its end with nothing in between. *)
Lemma in_flight_run ts1 ts2 f (p : prog response) :
  forall w cx,
    in_flight (ts1 ++ mkThread p cx f :: ts2) w ->
    exists t', in_flight (ts1 ++ t' :: ts2) (world_of (run f p w cx)).
Proof.
  induction p as [a|x|X c kont IH]; intros w cx H.
  - eexists. exact H.
  - eexists. exact H.
  - apply flight_step in H. unfold step_thread in H. simpl in H.
    unfold world_of in *. simpl.
    destruct (exec f c w cx) as [[x w1] cx1]. simpl in H.
    exact (IH x w1 cx1 H).
Qed.

(** Serving one request after the other is a special case. *)
Lemma reachable_in_flight w : reachable w -> exists ts, in_flight ts w.
Proof.
  induction 1 as [|cfg f r req w Hw [ts IH]].
  - exists []. constructor.
  - apply (flight_accept cfg f r req) in IH.
    destruct (in_flight_run [] ts f (view cfg r req) w empty_context IH) as [t' H'].
    exists (t' :: ts). exact H'.
Qed.

(** Two of the requests in progress may be interleaved. *)
Lemma in_flight_interleave sched :
  forall t1 t2 ts w,
    in_flight (t1 :: t2 :: ts) w ->
    in_flight (thread1 (interleave sched t1 t2 w) ::
               thread2 (interleave sched t1 t2 w) :: ts)
              (shared (interleave sched t1 t2 w)).
Proof.
  induction sched as [|b sched IH]; intros t1 t2 ts w H; [exact H|].
  destruct b; simpl.
  - apply (flight_step [t1] t2 ts w) in H.
    destruct (step_thread t2 w) as [t2' w1]. apply IH. exact H.
  - apply (flight_step [] t1 (t2 :: ts) w) in H.
    destruct (step_thread t1 w) as [t1' w1]. apply IH. exact H.
Qed.

(** C4. In every state the Member Store can reach from the empty store
    through the handlers, with any number of requests in progress and
    interleaved in any way (serving them one after the other included),
    no two rows have the same normalized email. The existence check does
    this when requests come one at a time, the unique constraint of the
    store when they overlap. *)
Theorem store_emails_unique ts w :
  in_flight ts w ->
  NoDup (map (fun m => normalize_email (email m)) (member_table w)).
Proof.
  intros H. apply table_ok_normalized_distinct.
  exact (proj1 (in_flight_ok ts w H)).
Qed.

Lemma race_store_emails_distinct :
  in_flight [thread1 race_jane; thread2 race_jane] (shared race_jane) /\
  map (fun m => normalize_email (email m)) (member_table (shared race_jane)) =
    ["jane@example.com"] /\
  NoDup (map (fun m => normalize_email (email m)) (member_table (shared race_jane))).
Proof.
  assert (H : in_flight [thread1 race_jane; thread2 race_jane] (shared race_jane)).
  { apply (in_flight_interleave both_check_first).
    apply (flight_accept cfg_on no_faults RRegister jane).
    apply (flight_accept cfg_on no_faults RRegister jane_again).
    exact flight_init. }
  split; [exact H|]. split; [reflexivity|].
  exact (store_emails_unique _ _ H).
Defined.

End AppFacts.

(* ===================================================================== *)
(** ** Process start: facts *)
(* ===================================================================== *)

Module StartupFacts.
Import Startup.

Lemma startswith_split p :
  forall s, startswith p s = true -> s = p ++ drop (String.length p) s.
Proof.
  induction p as [|a p IH]; intros s H; simpl in *; [reflexivity|].
  destruct s as [|b r]; [discriminate|].
  apply andb_true_iff in H as [Hab Hr].
  apply Ascii.eqb_eq in Hab. subst b. simpl. f_equal. now apply IH.
Qed.

Lemma startswith_app p r : startswith p (p ++ r) = true.
Proof.
  induction p as [|a p IH]; simpl; [reflexivity|].
  now rewrite Ascii.eqb_refl, IH.
Qed.

Lemma drop_app p r : drop (String.length p) (p ++ r) = r.
Proof. induction p as [|a p IH]; simpl; [reflexivity|exact IH]. Qed.

Lemma replace_first_at_start old new s :
  startswith old s = true ->
  replace_first old new s = new ++ drop (String.length old) s.
Proof. intros H. destruct s; simpl; rewrite H; reflexivity. Qed.

(** The address as the handler of line 31 sees it, case by case. *)
Lemma database_uri_cases env :
  (exists rest,
      getenv "DATABASE_URL" env = Some ("postgres://" ++ rest) /\
      SQLALCHEMY_DATABASE_URI (configure env) = "postgresql://" ++ rest) \/
  ((getenv "DATABASE_URL" env = None \/ getenv "DATABASE_URL" env = Some "") /\
   SQLALCHEMY_DATABASE_URI (configure env) = "sqlite:///nkulisa.db") \/
  (exists u,
      getenv "DATABASE_URL" env = Some u /\ u <> "" /\
      startswith "postgres://" u = false /\
      SQLALCHEMY_DATABASE_URI (configure env) = u).
Proof.
  unfold configure. cbn [SQLALCHEMY_DATABASE_URI]. unfold database_url.
  destruct (getenv "DATABASE_URL" env) as [u|] eqn:Hu.
  2:{ right. left. split; [now left|reflexivity]. }
  destruct u as [|c r].
  { right. left. split; [now right|reflexivity]. }
  cbn [truthy andb].
  destruct (startswith "postgres://" (String c r)) eqn:Hs.
  - left. pose proof (startswith_split _ _ Hs) as Hsplit.
    exists (drop (String.length "postgres://") (String c r)).
    split; [exact (f_equal Some Hsplit)|].
    rewrite (replace_first_at_start _ _ _ Hs). reflexivity.
  - right. right. exists (String c r).
    split; [reflexivity|]. split; [discriminate|]. split; [exact Hs|reflexivity].
Qed.

(** X1. A [DATABASE_URL] that opens with [postgres://] is handed to
    SQLAlchemy with the scheme [postgresql://] and everything after the
    scheme as it was: only the opening occurrence is rewritten, a later
    [postgres://] in the address stays. *)
Theorem postgres_scheme_rewritten env rest :
  getenv "DATABASE_URL" env = Some ("postgres://" ++ rest) ->
  SQLALCHEMY_DATABASE_URI (configure env) = "postgresql://" ++ rest.
Proof.
  intros H. unfold configure. cbn [SQLALCHEMY_DATABASE_URI].
  unfold database_url. rewrite H.
  rewrite (startswith_app "postgres://" rest).
  rewrite (replace_first_at_start _ _ _ (startswith_app "postgres://" rest)).
  rewrite drop_app. reflexivity.
Qed.

Lemma render_scheme_rewritten :
  getenv "DATABASE_URL" env_render =
    Some ("postgres://" ++ "u:p@db.example.org/nkulisa?next=postgres://x") /\
  SQLALCHEMY_DATABASE_URI (configure env_render) =
    "postgresql://u:p@db.example.org/nkulisa?next=postgres://x".
Proof.
  split; [reflexivity|].
  exact (postgres_scheme_rewritten env_render
           "u:p@db.example.org/nkulisa?next=postgres://x" eq_refl).
Defined.

Lemma database_uri_shape env :
  SQLALCHEMY_DATABASE_URI (configure env) <> "" /\
  startswith "postgres://" (SQLALCHEMY_DATABASE_URI (configure env)) = false.
Proof.
  destruct (database_uri_cases env)
    as [(rest & _ & ->)|[(_ & ->)|(u & _ & Hne & Hs & ->)]].
  - split; [discriminate|reflexivity].
  - split; [discriminate|reflexivity].
  - split; assumption.
Qed.

(** X2. Whatever the environment, the address handed to SQLAlchemy is not
    empty and does not open with [postgres://]. *)
Theorem database_uri_usable env :
  SQLALCHEMY_DATABASE_URI (configure env) <> "" /\
  startswith "postgres://" (SQLALCHEMY_DATABASE_URI (configure env)) = false.
Proof. apply database_uri_shape. Qed.

(** X3. The configured address is a fixed point: a process started with
    [DATABASE_URL] set to the address an earlier start computed computes
    the same address. *)
Theorem database_uri_stable env env' :
  getenv "DATABASE_URL" env' = Some (SQLALCHEMY_DATABASE_URI (configure env)) ->
  SQLALCHEMY_DATABASE_URI (configure env') = SQLALCHEMY_DATABASE_URI (configure env).
Proof.
  intros H.
  destruct (database_uri_shape env) as [Hne Hs].
  remember (SQLALCHEMY_DATABASE_URI (configure env)) as uri eqn:Huri.
  clear Huri.
  destruct (database_uri_cases env')
    as [(rest & Hu & _)|[([Hu|Hu] & _)|(u & Hu & _ & _ & Hres)]];
    rewrite H in Hu.
  - assert (Hr : uri = "postgres://" ++ rest) by congruence.
    rewrite Hr, (startswith_app "postgres://" rest) in Hs. discriminate.
  - discriminate.
  - assert (Hr : uri = "") by congruence. contradiction.
  - rewrite Hres. congruence.
Qed.

Lemma render_uri_stable :
  getenv "DATABASE_URL"
    [("DATABASE_URL", "postgresql://u:p@db.example.org/nkulisa?next=postgres://x")] =
    Some (SQLALCHEMY_DATABASE_URI (configure env_render)) /\
  SQLALCHEMY_DATABASE_URI
    (configure [("DATABASE_URL", "postgresql://u:p@db.example.org/nkulisa?next=postgres://x")]) =
    "postgresql://u:p@db.example.org/nkulisa?next=postgres://x".
Proof.
  split; [reflexivity|].
  exact (database_uri_stable env_render
           [("DATABASE_URL", "postgresql://u:p@db.example.org/nkulisa?next=postgres://x")]
           eq_refl).
Defined.

(** X4. With [DATABASE_URL] unset or set to the empty text the application
    runs on the local SQLite file; an unset [SECRET_KEY] gives the
    development key, but a [SECRET_KEY] set to the empty text is taken as
    it is. *)
Theorem defaults_when_unset env :
  ((getenv "DATABASE_URL" env = None \/ getenv "DATABASE_URL" env = Some "") ->
   SQLALCHEMY_DATABASE_URI (configure env) = "sqlite:///nkulisa.db") /\
  (getenv "SECRET_KEY" env = None -> secret_key (configure env) = "dev_secret_key") /\
  (getenv "SECRET_KEY" env = Some "" -> secret_key (configure env) = "").
Proof.
  unfold configure, database_url, getenv_or.
  cbn [SQLALCHEMY_DATABASE_URI secret_key].
  split; [|split].
  - intros [H|H]; rewrite H; reflexivity.
  - intros H. now rewrite H.
  - intros H. now rewrite H.
Qed.

Lemma bare_defaults :
  getenv "DATABASE_URL" env_bare = Some "" /\
  getenv "SECRET_KEY" env_bare = None /\
  SQLALCHEMY_DATABASE_URI (configure env_bare) = "sqlite:///nkulisa.db" /\
  secret_key (configure env_bare) = "dev_secret_key".
Proof.
  destruct (defaults_when_unset env_bare) as (Hdb & Hkey & _).
  split; [reflexivity|]. split; [reflexivity|].
  split; [exact (Hdb (or_intror eq_refl))|exact (Hkey eq_refl)].
Defined.

(** X5. After the Firebase block the session is active exactly when it was
    active before, or credentials are present and not empty and the
    initialization went through. A failed initialization is caught: the
    block prints its error and leaves the session inactive. *)
Theorem firebase_active_iff env apps0 attempt :
  apps (firebase_init env apps0 attempt) = true <->
  apps0 = true \/
  (truthy (getenv "FIREBASE_CREDENTIALS" env) = true /\ attempt = None).
Proof.
  unfold firebase_init.
  destruct (truthy (getenv "FIREBASE_CREDENTIALS" env)), apps0, attempt; simpl;
    split; intros H; auto;
    try discriminate; try (destruct H as [H|[H1 H2]]; discriminate).
Qed.

(** X6. The block initializes at most once, and not at all when a session
    exists already or the credentials are missing or empty: then it makes
    no call, leaves the session as it was and prints the "not initialized"
    line. *)
Theorem firebase_init_skipped env apps0 attempt :
  (Datatypes.length (init_calls (firebase_init env apps0 attempt)) <= 1)%nat /\
  (apps0 = true \/ truthy (getenv "FIREBASE_CREDENTIALS" env) = false ->
   init_calls (firebase_init env apps0 attempt) = [] /\
   apps (firebase_init env apps0 attempt) = apps0 /\
   printed (firebase_init env apps0 attempt) = LineNotInitialized).
Proof.
  unfold firebase_init.
  destruct (truthy (getenv "FIREBASE_CREDENTIALS" env)), apps0, attempt; simpl;
    (split; [lia|]); intros [H|H]; try discriminate; auto.
Qed.

Lemma bare_init_skipped :
  truthy (getenv "FIREBASE_CREDENTIALS" env_bare) = false /\
  init_calls (firebase_init env_bare false None) = [] /\
  apps (firebase_init env_bare false None) = false /\
  printed (firebase_init env_bare false None) = LineNotInitialized.
Proof.
  split; [reflexivity|].
  exact (proj2 (firebase_init_skipped env_bare false None) (or_intror eq_refl)).
Defined.

(** The handlers get the secret key the start left: an empty [SECRET_KEY]
    stays empty, an unset one becomes the default. *)
Example keyless_environment_config :
  handler_config env_keyless false None =
    App.mkConfig "" false (Some "office@example.org") /\
  App.secret_key (handler_config env_bare false None) = "dev_secret_key".
Proof. split; reflexivity. Qed.

End StartupFacts.

(* ===================================================================== *)
(** ** What requests keep true of the stores: facts *)
(* ===================================================================== *)

Module LifecycleFacts.
Import PyStr PyStrFacts App AppFacts Lifecycle.
Local Open Scope list_scope.

(** *** Every way a request can go *)

(** An exception raised in the [try] of the contact handler before the
    send: the [except] clause flashes it, if it can. *)
Lemma run_caught_flash cfg f x r w :
  run f
    (try_except (Raise x)
       (fun e0 => flash cfg ("Failed to send message: " ++ str e0)%string "danger") ;;
     Ret r) w empty_context =
  (flash_result cfg r, w,
   mkContext [] (flash_list cfg "danger" ("Failed to send message: " ++ str x)%string)).
Proof. exact (run_flash_return cfg f _ _ r w empty_context). Qed.

Lemma contact_cases cfg f req w :
  contact_case cfg f req w (serve cfg f RContact req w).
Proof.
  unfold serve, view.
  destruct (method req =? "POST") eqn:Hm.
  2:{ unfold contact. rewrite Hm. apply cc_get.
      intros H. rewrite H in Hm. discriminate. }
  apply String.eqb_eq in Hm.
  destruct (multidict_get "name" (form req)) as [n|] eqn:Hn.
  2:{ unfold contact, form_item. rewrite Hm, Hn.
      change (contact_case cfg f req w
                (run f
                   (try_except (Raise (BadRequestKeyError "name"))
                      (fun e0 => flash cfg ("Failed to send message: " ++ str e0)%string "danger") ;;
                    Ret (Redirect "contact")) w empty_context)).
      rewrite run_caught_flash. now apply cc_missing. }
  destruct (multidict_get "email" (form req)) as [e|] eqn:He.
  2:{ unfold contact, form_item. rewrite Hm, Hn, He.
      change (contact_case cfg f req w
                (run f
                   (try_except (Raise (BadRequestKeyError "email"))
                      (fun e0 => flash cfg ("Failed to send message: " ++ str e0)%string "danger") ;;
                    Ret (Redirect "contact")) w empty_context)).
      rewrite run_caught_flash. now apply cc_missing. }
  destruct (multidict_get "message" (form req)) as [m|] eqn:Hmsg.
  2:{ unfold contact, form_item. rewrite Hm, Hn, He, Hmsg.
      change (contact_case cfg f req w
                (run f
                   (try_except (Raise (BadRequestKeyError "message"))
                      (fun e0 => flash cfg ("Failed to send message: " ++ str e0)%string "danger") ;;
                    Ret (Redirect "contact")) w empty_context)).
      rewrite run_caught_flash. now apply cc_missing. }
  assert (Hw : writes_in req n e m) by (repeat split; assumption).
  change (run f (contact cfg req) w empty_context) with (serve cfg f RContact req w).
  rewrite (contact_written cfg f req w n e m Hw).
  destruct (send_fault f) eqn:Hs; [now apply cc_send_fault|now apply cc_sent].
Qed.

Lemma after_mirror_mirror_off cfg f v w :
  firebase_apps cfg = false -> after_mirror cfg f v w = w.
Proof. unfold after_mirror. now intros ->. Qed.

Lemma calls_since_same w : calls_since w w = [].
Proof. unfold calls_since. apply skipn_all. Qed.

(** The rows a request leaves are the rows it found, then at most one. *)
Lemma serve_appends cfg f r req w :
  exists l,
    member_table (world_of (serve cfg f r req w)) = member_table w ++ l /\
    (Datatypes.length l <= 1)%nat /\
    (l <> [] ->
     r = RRegister /\
     result_of (serve cfg f r req w) = flash_result cfg (Redirect "index")).
Proof.
  assert (Hnone : forall (rows : list Member) (P : Prop),
             exists l, rows = rows ++ l /\ (Datatypes.length l <= 1)%nat /\ (l <> [] -> P)).
  { intros rows P. exists []. rewrite app_nil_r. simpl.
    split; [reflexivity|]. split; [lia|]. intros H. now contradiction H. }
  destruct r.
  - apply Hnone.
  - apply Hnone.
  - rewrite contact_keeps_table. apply Hnone.
  - pose proof (register_cases cfg f req w) as Hc.
    destruct Hc as [ Hm | key Hk | n e p k x Hs Hq | n e p k m Hs Hq Hf
                   | n e p k x Hs Hq Hf Hcf | n e p k Hs Hq Hf Hcf ];
      unfold result_of, world_of; simpl; try apply Hnone.
    rewrite after_mirror_table. simpl.
    eexists. split; [reflexivity|]. simpl. split; [lia|]. auto.
  - apply Hnone.
Qed.

(** *** Errors of the registration handler *)

(** X7. A registration POST that lacks one of the four form fields raises
    the bad-request exception for the first field missing in the order
    name, phone, email, package. It does so before any call: the stores,
    the call log and the flashes are as they were. *)
Theorem register_missing_field cfg f req w key :
  method req = "POST" ->
  first_missing (form req) = Some key ->
  serve cfg f RRegister req w = (Raised (BadRequestKeyError key), w, empty_context).
Proof.
  intros Hm Hk. unfold serve, view, register, form_item. rewrite Hm. simpl.
  unfold first_missing in Hk.
  destruct (multidict_get "name" (form req)); [|now injection Hk as <-].
  destruct (multidict_get "phone" (form req)); [|now injection Hk as <-].
  destruct (multidict_get "email" (form req)); [|now injection Hk as <-].
  destruct (multidict_get "package" (form req)); [discriminate|now injection Hk as <-].
Qed.

Lemma no_phone_bad_request :
  method no_phone = "POST" /\
  first_missing (form no_phone) = Some "phone" /\
  serve cfg_on no_faults RRegister no_phone jane_world =
    (Raised (BadRequestKeyError "phone"), jane_world, empty_context).
Proof.
  split; [reflexivity|]. split; [reflexivity|].
  exact (register_missing_field cfg_on no_faults no_phone jane_world "phone"
           eq_refl eq_refl).
Defined.

(** X8. When the existence query itself fails, the exception leaves the
    handler: the query is the one call made, no commit is tried, nothing
    is flashed and no store changes. *)
Theorem register_query_failure_propagates cfg f req w n e p k x :
  submits req n e p k ->
  query_fault f = Some x ->
  serve cfg f RRegister req w =
    (Raised x, log_call (CallQuery (lower (strip e))) w, empty_context).
Proof.
  intros Hs Hq. unfold serve, view.
  rewrite (register_submitted cfg req n e p k Hs). simpl. rewrite Hq. reflexivity.
Qed.

Lemma jane_query_failure :
  submits jane " Jane Doe " " Jane@Example.com " "0712345678" "Gold" /\
  serve cfg_on query_down RRegister jane empty_world =
    (Raised (ServiceError "could not connect"),
     log_call (CallQuery "jane@example.com") empty_world, empty_context).
Proof.
  assert (Hs : submits jane " Jane Doe " " Jane@Example.com " "0712345678" "Gold")
    by (repeat split; reflexivity).
  split; [exact Hs|].
  exact (register_query_failure_propagates cfg_on query_down jane empty_world
           " Jane Doe " " Jane@Example.com " "0712345678" "Gold"
           (ServiceError "could not connect") Hs eq_refl).
Defined.

(** X9. With a secret key that is not empty, a registration request that
    ends in an exception, whatever the cause, has written nothing: the
    Member table and the mirror are as they were, nothing was pushed and
    nothing is flashed. (With an empty secret key the flash itself raises,
    after the writes.) *)
Theorem register_exception_writes_nothing cfg f req w x :
  secret_key cfg <> "" ->
  result_of (serve cfg f RRegister req w) = Raised x ->
  member_table (world_of (serve cfg f RRegister req w)) = member_table w /\
  mirror (world_of (serve cfg f RRegister req w)) = mirror w /\
  stdout (world_of (serve cfg f RRegister req w)) = stdout w /\
  flashes (context_of (serve cfg f RRegister req w)) = [] /\
  (forall path v,
      ~ In (CallPush path v) (calls_since w (world_of (serve cfg f RRegister req w)))).
Proof.
  intros Hkey Hr.
  pose proof (register_cases cfg f req w) as Hc.
  destruct Hc as [ Hm | key Hk | n e p k y Hs Hq | n e p k m Hs Hq Hf
                 | n e p k y Hs Hq Hf Hcf | n e p k Hs Hq Hf Hcf ];
    unfold result_of, world_of, context_of in *; simpl in *;
    try rewrite (flash_result_keyed cfg _ Hkey) in Hr; try discriminate.
  - repeat split. intros path v. now rewrite calls_since_same.
  - repeat split. intros path v.
    rewrite (calls_since_app w _ [CallQuery (normalize_email e)]) by reflexivity.
    intros [H|[]]. discriminate.
  - repeat split. intros path v.
    erewrite calls_since_app. 2:{ simpl. rewrite <- app_assoc. reflexivity. }
    intros [H|[H|[]]]; discriminate.
Qed.

Lemma no_phone_writes_nothing :
  secret_key cfg_on <> "" /\
  result_of (serve cfg_on no_faults RRegister no_phone jane_world) =
    Raised (BadRequestKeyError "phone") /\
  member_table (world_of (serve cfg_on no_faults RRegister no_phone jane_world)) =
    [jane_row] /\
  flashes (context_of (serve cfg_on no_faults RRegister no_phone jane_world)) = [].
Proof.
  assert (Hkey : secret_key cfg_on <> "") by discriminate.
  destruct (register_exception_writes_nothing cfg_on no_faults no_phone jane_world
              (BadRequestKeyError "phone") Hkey eq_refl) as (Ht & _ & _ & Hfl & _).
  split; [exact Hkey|]. split; [reflexivity|]. split; [exact Ht|exact Hfl].
Defined.

(** X10. A registration request makes at most one query, one commit and
    one push, in this order and never again: the calls it makes are an
    initial part of the sequence query, commit, push. *)
Theorem register_calls_in_order cfg f req w :
  exists e m v rest,
    [CallQuery e; CallCommit [m]; CallPush "members" v] =
    calls_since w (world_of (serve cfg f RRegister req w)) ++ rest.
Proof.
  pose proof (register_cases cfg f req w) as Hc.
  destruct Hc as [ Hm | key Hk | n e p k y Hs Hq | n e p k m Hs Hq Hf
                 | n e p k y Hs Hq Hf Hcf | n e p k Hs Hq Hf Hcf ];
    unfold world_of; simpl.
  - rewrite calls_since_same. exists "", (mkMember None "" "" "" ""), []. eexists. reflexivity.
  - rewrite calls_since_same. exists "", (mkMember None "" "" "" ""), []. eexists. reflexivity.
  - rewrite (calls_since_app w _ [CallQuery (normalize_email e)]) by reflexivity.
    exists (normalize_email e), (mkMember None "" "" "" ""), []. eexists. reflexivity.
  - rewrite (calls_since_app w _ [CallQuery (normalize_email e)]) by reflexivity.
    exists (normalize_email e), (mkMember None "" "" "" ""), []. eexists. reflexivity.
  - erewrite calls_since_app. 2:{ simpl. rewrite <- app_assoc. reflexivity. }
    do 2 eexists. exists []. eexists. reflexivity.
  - erewrite calls_since_app.
    2:{ rewrite after_mirror_calls. simpl. rewrite <- !app_assoc. reflexivity. }
    destruct (firebase_apps cfg); simpl.
    + do 3 eexists. exists []. reflexivity.
    + do 2 eexists. exists []. eexists. reflexivity.
Qed.

(** X11. Each request leaves the rows it found untouched and in place, and
    adds at most one row after them. A row is added only by a registration
    that got as far as its success flash: it ends with the success outcome
    when the secret key is not empty, and with the exception of that flash
    when it is. Nothing is ever updated or deleted. *)
Theorem request_appends_at_most_one_row cfg f r req w :
  exists l,
    member_table (world_of (serve cfg f r req w)) = member_table w ++ l /\
    (Datatypes.length l <= 1)%nat /\
    (l <> [] ->
     r = RRegister /\
     (secret_key cfg <> "" ->
      result_of (serve cfg f r req w) = Returned (Redirect "index")) /\
     (secret_key cfg = "" ->
      result_of (serve cfg f r req w) = Raised (RuntimeError session_unavailable))).
Proof.
  destruct (serve_appends cfg f r req w) as (l & Ht & Hlen & Hadd).
  exists l. split; [exact Ht|]. split; [exact Hlen|].
  intros Hl. destruct (Hadd Hl) as [Hr Hres].
  split; [exact Hr|]. rewrite Hres. split; intros Hkey.
  - now apply flash_result_keyed.
  - now apply flash_result_keyless.
Qed.

(** *** Rows stay *)

Lemma has_email_app e rows l : has_email e rows -> has_email e (rows ++ l).
Proof.
  intros [m [Hin He]]. exists m. split; [|exact He].
  apply in_or_app. now left.
Qed.

Lemma later_has_email e w w' :
  later w w' -> has_email e (member_table w) -> has_email e (member_table w').
Proof.
  induction 1 as [|cfg f r req w w' Hl IH]; intros He; [exact He|].
  destruct (serve_appends cfg f r req w') as (l & -> & _).
  apply has_email_app. now apply IH.
Qed.

(** X12. An email once stored stays taken. After any number of further
    requests, a registration whose email normalizes to a stored one makes
    its query and nothing else, and the table is left as it is: submitting
    a form twice never makes a second row. With a secret key that is not
    empty the request is turned away with the DuplicateEmail outcome. *)
Theorem registered_email_stays_taken cfg f req w w' n raw p k :
  has_email (lower (strip raw)) (member_table w) ->
  later w w' ->
  submits req n raw p k ->
  query_fault f = None ->
  member_table (world_of (serve cfg f RRegister req w')) = member_table w' /\
  calls_since w' (world_of (serve cfg f RRegister req w')) =
    [CallQuery (lower (strip raw))] /\
  (secret_key cfg <> "" ->
   result_of (serve cfg f RRegister req w') = Returned (Redirect "register") /\
   flashes (context_of (serve cfg f RRegister req w')) =
     [("danger", "Email already registered.")]).
Proof.
  intros He Hl Hs Hq.
  apply (later_has_email _ _ _ Hl) in He.
  apply first_by_email_present in He as [m Hm].
  unfold serve, view. rewrite (register_submitted cfg req n raw p k Hs).
  unfold normalize_email.
  rewrite (run_check_duplicate cfg f _ _ _ _ w' empty_context m Hq Hm).
  unfold result_of, world_of, context_of. simpl.
  split; [reflexivity|]. split; [now apply calls_since_app|].
  intros Hkey. now rewrite flash_result_keyed, flash_list_keyed.
Qed.

Lemma jane_stays_taken :
  has_email "jane@example.com" (member_table jane_world) /\
  later jane_world busy_world /\
  submits jane " Jane Doe " " Jane@Example.com " "0712345678" "Gold" /\
  secret_key cfg_on <> "" /\
  result_of (serve cfg_on no_faults RRegister jane busy_world) =
    Returned (Redirect "register") /\
  member_table (world_of (serve cfg_on no_faults RRegister jane busy_world)) =
    member_table busy_world.
Proof.
  assert (He : has_email "jane@example.com" (member_table jane_world))
    by (exists jane_row; split; [left; reflexivity|reflexivity]).
  assert (Hl : later jane_world busy_world).
  { exact (later_serve cfg_on mirror_down RRegister blank_form _ _
             (later_serve cfg_on no_faults RRegister jane_again _ _
                (later_now jane_world))). }
  assert (Hs : submits jane " Jane Doe " " Jane@Example.com " "0712345678" "Gold")
    by (repeat split; reflexivity).
  assert (Hkey : secret_key cfg_on <> "") by discriminate.
  split; [exact He|]. split; [exact Hl|]. split; [exact Hs|]. split; [exact Hkey|].
  destruct (registered_email_stays_taken cfg_on no_faults jane jane_world busy_world
              " Jane Doe " " Jane@Example.com " "0712345678" "Gold" He Hl Hs eq_refl)
    as (Ht & _ & Hon).
  split; [exact (proj1 (Hon Hkey))|exact Ht].
Defined.

(** *** Rows are well formed *)

Lemma serve_rows_ok cfg f r req w :
  Forall row_ok (member_table w) ->
  Forall row_ok (member_table (world_of (serve cfg f r req w))).
Proof.
  intros Hok. destruct r; try exact Hok.
  - now rewrite contact_keeps_table.
  - pose proof (register_cases cfg f req w) as Hc.
    destruct Hc as [ Hm | key Hk | n e p k x Hs Hq | n e p k m Hs Hq Hf
                   | n e p k x Hs Hq Hf Hcf | n e p k Hs Hq Hf Hcf ];
      unfold world_of; simpl; try exact Hok.
    rewrite after_mirror_table. simpl.
    apply Forall_app. split; [exact Hok|].
    constructor; [|constructor].
    unfold row_ok. simpl.
    split; [apply strip_idem|]. split; [apply strip_idem|].
    split; [apply normalize_email_idem|discriminate].
Qed.

(** X13. In every state reached by serving requests from the empty store,
    each row has a key, a name and a phone with no whitespace at either
    end, and an email that normalization leaves as it is. *)
Theorem stored_rows_well_formed w :
  reachable w -> Forall row_ok (member_table w).
Proof.
  induction 1 as [|cfg f r req w Hw IH]; [constructor|].
  now apply serve_rows_ok.
Qed.

Lemma busy_rows_well_formed :
  reachable busy_world /\
  member_table busy_world = [jane_row; mkMember (Some 2%Z) "" "a@b.c" "" "Gold"] /\
  Forall row_ok (member_table busy_world).
Proof.
  assert (Hw : reachable busy_world).
  { exact (reach_serve cfg_on mirror_down RRegister blank_form _
             (reach_serve cfg_on no_faults RRegister jane_again _
                (reach_serve cfg_off no_faults RRegister jane _ reach_init))). }
  split; [exact Hw|]. split; [reflexivity|].
  exact (stored_rows_well_formed busy_world Hw).
Defined.

(** *** Keys *)

Lemma max_id_nonneg rows : (0 <= max_id rows)%Z.
Proof. induction rows as [|m rows IH]; simpl; lia. Qed.

Lemma max_id_app rows l : max_id (rows ++ l) = Z.max (max_id rows) (max_id l).
Proof.
  induction rows as [|m rows IH]; simpl.
  - pose proof (max_id_nonneg l). lia.
  - rewrite IH. lia.
Qed.

Lemma next_id_max rows : next_id rows = (1 + max_id rows)%Z.
Proof. reflexivity. Qed.

Lemma ids_ok_add rows m :
  ids_ok rows -> ids_ok (rows ++ [with_id (next_id rows) m]).
Proof.
  intros [Hnd Hall]. pose proof (max_id_nonneg rows) as Hmax.
  assert (Hnext : next_id (rows ++ [with_id (next_id rows) m]) = (2 + max_id rows)%Z).
  { rewrite (next_id_max (rows ++ _)), max_id_app.
    change (max_id [with_id (next_id rows) m]) with (Z.max (next_id rows) 0).
    rewrite next_id_max. lia. }
  split.
  - rewrite map_app. simpl.
    apply NoDup_app; [exact Hnd|repeat constructor; intros []|].
    intros i Hin [<-|[]].
    apply in_map_iff in Hin as (r & Hr & Hin).
    rewrite Forall_forall in Hall. destruct (Hall r Hin) as [_ Hlt].
    change (row_id (with_id (next_id rows) m)) with (next_id rows) in Hr. lia.
  - apply Forall_app. split.
    + rewrite Forall_forall in *. intros r Hin.
      destruct (Hall r Hin) as [Hid Hlt]. split; [exact Hid|].
      rewrite Hnext. rewrite next_id_max in Hlt. lia.
    + constructor; [|constructor].
      change (row_id (with_id (next_id rows) m)) with (next_id rows).
      split; [reflexivity|]. rewrite Hnext, next_id_max. lia.
Qed.

Lemma insert_rows_ids_ok pending :
  forall rows rows',
    ids_ok rows -> insert_rows pending rows = Returned rows' -> ids_ok rows'.
Proof.
  induction pending as [|m pending IH]; intros rows rows' Hok; simpl.
  - intros [= <-]. exact Hok.
  - destruct (first_by_email (email m) rows); [discriminate|].
    apply IH. now apply ids_ok_add.
Qed.

Lemma step_thread_ids_ok t w :
  ids_ok (member_table w) -> ids_ok (member_table (snd (step_thread t w))).
Proof.
  destruct t as [c cx f]. unfold step_thread. simpl. intros Hok.
  destruct c as [a|x|X c kont]; simpl; [exact Hok|exact Hok|].
  destruct c; simpl.
  - destruct (query_fault f); exact Hok.
  - exact Hok.
  - destruct (commit_fault f); simpl; [exact Hok|].
    destruct (insert_rows (session_new cx) (member_table w)) as [rows|x] eqn:Hi; simpl.
    + eapply insert_rows_ids_ok; eassumption.
    + exact Hok.
  - destruct (push_fault f); exact Hok.
  - destruct (send_fault f); exact Hok.
  - exact Hok.
  - exact Hok.
Qed.

(** X14. With any number of requests in progress, interleaved in any way,
    every row of the Member table has a key of its own: the keys are
    assigned, positive and pairwise distinct. *)
Theorem stored_ids_distinct ts w :
  in_flight ts w -> ids_ok (member_table w).
Proof.
  induction 1 as [|cfg f r req ts w H IH|ts1 t ts2 w H IH].
  - split; constructor.
  - exact IH.
  - now apply step_thread_ids_ok.
Qed.

Lemma race_ids_distinct :
  in_flight [thread1 race_apart; thread2 race_apart] (shared race_apart) /\
  map id (member_table (shared race_apart)) = [Some 1%Z; Some 2%Z] /\
  ids_ok (member_table (shared race_apart)).
Proof.
  assert (H : in_flight [thread1 race_apart; thread2 race_apart] (shared race_apart)).
  { apply (in_flight_interleave both_check_first).
    apply (flight_accept cfg_on no_faults RRegister jane).
    apply (flight_accept cfg_on mirror_down RRegister sipho).
    exact flight_init. }
  split; [exact H|]. split; [reflexivity|].
  exact (stored_ids_distinct _ _ H).
Defined.

(** *** The mirror *)

Lemma after_mirror_mirror cfg f v w :
  mirror (after_mirror cfg f v w) =
  mirror w ++
    (if firebase_apps cfg
     then match push_fault f with Some _ => [] | None => [("members", v)] end
     else []).
Proof.
  unfold after_mirror. destruct (firebase_apps cfg); [|now rewrite app_nil_r].
  destruct (push_fault f); simpl; [now rewrite app_nil_r|reflexivity].
Qed.

Lemma after_mirror_sent_mail cfg f v w :
  sent_mail (after_mirror cfg f v w) = sent_mail w.
Proof.
  unfold after_mirror. destruct (firebase_apps cfg); [|reflexivity].
  destruct (push_fault f); reflexivity.
Qed.

Lemma mirror_backed_grow w w' l :
  mirror_backed w ->
  member_table w' = member_table w ++ l ->
  mirror w' = mirror w ->
  mirror_backed w'.
Proof.
  intros Hb Ht Hm path v Hin. rewrite Hm in Hin.
  destruct (Hb path v Hin) as (Hp & m & Hin' & Hv).
  split; [exact Hp|]. exists m. split; [|exact Hv].
  rewrite Ht. apply in_or_app. now left.
Qed.

Lemma serve_mirror_backed cfg f r req w :
  mirror_backed w -> mirror_backed (world_of (serve cfg f r req w)).
Proof.
  intros Hb. destruct r; try exact Hb.
  - pose proof (contact_cases cfg f req w) as Hc.
    destruct Hc as [Hm|key Hm Hk|n e m x Hw Hx|n e m Hw Hx];
      unfold world_of; simpl; try exact Hb;
      solve [apply (mirror_backed_grow w _ []); simpl; auto using app_nil_r].
  - pose proof (register_cases cfg f req w) as Hc.
    destruct Hc as [ Hm | key Hk | n e p k x Hs Hq | n e p k m Hs Hq Hf
                   | n e p k x Hs Hq Hf Hcf | n e p k Hs Hq Hf Hcf ];
      unfold world_of; simpl; try exact Hb;
      try solve [apply (mirror_backed_grow w _ []); simpl; auto using app_nil_r].
    intros path v Hin.
    rewrite after_mirror_table. rewrite after_mirror_mirror in Hin. simpl in *.
    apply in_app_or in Hin as [Hin|Hin].
    + destruct (Hb path v Hin) as (Hp & m & Hin' & Hv).
      split; [exact Hp|]. exists m. split; [|exact Hv].
      apply in_or_app. now left.
    + destruct (firebase_apps cfg); [|destruct Hin].
      destruct (push_fault f); [destruct Hin|].
      destruct Hin as [[= <- <-]|[]].
      split; [reflexivity|]. eexists. split; [apply in_or_app; right; left; reflexivity|].
      reflexivity.
Qed.

(** X15. In every state reached by serving requests from the empty store,
    each child of the mirror sits in the collection ["members"] and is the
    copy of a row of the Member table: the mirror never holds a member the
    table lacks. *)
Theorem mirror_copies_backed w : reachable w -> mirror_backed w.
Proof.
  induction 1 as [|cfg f r req w Hw IH].
  - intros path v [].
  - now apply serve_mirror_backed.
Qed.

Lemma jane_copy_backed :
  reachable (world_of (serve cfg_on no_faults RRegister jane empty_world)) /\
  mirror (world_of (serve cfg_on no_faults RRegister jane empty_world)) =
    [("members", mirror_record "Jane Doe" "jane@example.com" "0712345678" "Gold")] /\
  mirror_backed (world_of (serve cfg_on no_faults RRegister jane empty_world)).
Proof.
  assert (Hw : reachable (world_of (serve cfg_on no_faults RRegister jane empty_world)))
    by exact (reach_serve cfg_on no_faults RRegister jane _ reach_init).
  split; [exact Hw|]. split; [reflexivity|].
  exact (mirror_copies_backed _ Hw).
Defined.

(** X16. A registration of a new email, with the store answering, the
    Firebase session active and the push going through, adds exactly one
    child to the mirror, the copy of the new row, after the children
    already there, and prints nothing. *)
Theorem mirror_receives_copy cfg f req w n e p k :
  submits req n e p k ->
  query_fault f = None ->
  commit_fault f = None ->
  ~ has_email (lower (strip e)) (member_table w) ->
  firebase_apps cfg = true ->
  push_fault f = None ->
  mirror (world_of (serve cfg f RRegister req w)) =
    mirror w ++
      [("members",
        [("full_name", strip n); ("email", lower (strip e));
         ("phone", strip p); ("package", k)])] /\
  stdout (world_of (serve cfg f RRegister req w)) = stdout w.
Proof.
  intros Hs Hq Hc Hfresh Hon Hpush.
  apply first_by_email_absent in Hfresh.
  unfold serve, view. rewrite (register_submitted cfg req n e p k Hs).
  unfold normalize_email in *.
  rewrite run_check_fresh by assumption.
  unfold world_of, after_mirror. simpl. rewrite Hon, Hpush. simpl. auto.
Qed.

Lemma jane_copy_received :
  submits jane " Jane Doe " " Jane@Example.com " "0712345678" "Gold" /\
  ~ has_email "jane@example.com" (member_table empty_world) /\
  mirror (world_of (serve cfg_on no_faults RRegister jane empty_world)) =
    [("members",
      [("full_name", "Jane Doe"); ("email", "jane@example.com");
       ("phone", "0712345678"); ("package", "Gold")])].
Proof.
  assert (Hs : submits jane " Jane Doe " " Jane@Example.com " "0712345678" "Gold")
    by (repeat split; reflexivity).
  assert (Hfresh : ~ has_email "jane@example.com" (member_table empty_world))
    by (intros [m [[] _]]).
  split; [exact Hs|]. split; [exact Hfresh|].
  exact (proj1 (mirror_receives_copy cfg_on no_faults jane empty_world
                  " Jane Doe " " Jane@Example.com " "0712345678" "Gold"
                  Hs eq_refl eq_refl Hfresh eq_refl eq_refl)).
Defined.

(** Without a Firebase session no request touches the mirror. *)
Lemma serve_without_session cfg f r req w :
  firebase_apps cfg = false ->
  mirror (world_of (serve cfg f r req w)) = mirror w /\
  stdout (world_of (serve cfg f r req w)) = stdout w /\
  (forall path v, ~ In (CallPush path v) (calls_since w (world_of (serve cfg f r req w)))).
Proof.
  intros Hoff.
  assert (Hsame : mirror w = mirror w /\ stdout w = stdout w /\
                  (forall path v, ~ In (CallPush path v) (calls_since w w))).
  { split; [reflexivity|]. split; [reflexivity|].
    intros path v. now rewrite calls_since_same. }
  destruct r; try exact Hsame.
  - pose proof (contact_cases cfg f req w) as Hc.
    destruct Hc as [Hm|key Hm Hk|n e m x Hw Hx|n e m Hw Hx];
      unfold world_of; simpl; try exact Hsame;
      (split; [reflexivity|]; split; [reflexivity|]; intros path v;
       erewrite calls_since_app by reflexivity; intros [H|[]]; discriminate).
  - pose proof (register_cases cfg f req w) as Hc.
    destruct Hc as [ Hm | key Hk | n e p k x Hs Hq | n e p k m Hs Hq Hf
                   | n e p k x Hs Hq Hf Hcf | n e p k Hs Hq Hf Hcf ];
      unfold world_of; simpl; try exact Hsame;
      try rewrite (after_mirror_mirror_off _ _ _ _ Hoff); simpl;
      (split; [reflexivity|]; split; [reflexivity|]; intros path v).
    + rewrite (calls_since_app w _ [CallQuery (normalize_email e)]) by reflexivity.
      intros [H|[]]; discriminate.
    + rewrite (calls_since_app w _ [CallQuery (normalize_email e)]) by reflexivity.
      intros [H|[]]; discriminate.
    + erewrite calls_since_app. 2:{ simpl. rewrite <- app_assoc. reflexivity. }
      intros [H|[H|[]]]; discriminate.
    + erewrite calls_since_app. 2:{ simpl. rewrite <- app_assoc. reflexivity. }
      intros [H|[H|[]]]; discriminate.
Qed.

(** X17. A process started without [FIREBASE_CREDENTIALS], with empty
    ones, or with ones whose initialization fails, and with no session
    before, serves every request without touching the mirror: no push is
    made, the mirror stays as it is and nothing is printed. *)
Theorem no_credentials_no_mirror env attempt f r req w :
  Startup.truthy (Startup.getenv "FIREBASE_CREDENTIALS" env) = false \/ attempt <> None ->
  mirror (world_of (serve (Startup.handler_config env false attempt) f r req w)) = mirror w /\
  stdout (world_of (serve (Startup.handler_config env false attempt) f r req w)) = stdout w /\
  (forall path v,
      ~ In (CallPush path v)
          (calls_since w
             (world_of (serve (Startup.handler_config env false attempt) f r req w)))).
Proof.
  intros H. apply serve_without_session.
  unfold Startup.handler_config, Startup.firebase_init. simpl.
  destruct (Startup.truthy (Startup.getenv "FIREBASE_CREDENTIALS" env)); [|reflexivity].
  destruct attempt; simpl; [reflexivity|].
  destruct H as [H|H]; [discriminate|now contradiction H].
Qed.

Lemma malformed_credentials_no_mirror :
  Some (ServiceError "Expecting property name") <> None /\
  member_table
    (world_of (serve (Startup.handler_config Startup.env_render false
                        (Some (ServiceError "Expecting property name")))
                 no_faults RRegister jane empty_world)) = [jane_row] /\
  mirror
    (world_of (serve (Startup.handler_config Startup.env_render false
                        (Some (ServiceError "Expecting property name")))
                 no_faults RRegister jane empty_world)) = [].
Proof.
  assert (Hne : Some (ServiceError "Expecting property name") <> None) by discriminate.
  split; [exact Hne|]. split; [reflexivity|].
  exact (proj1 (no_credentials_no_mirror Startup.env_render
                  (Some (ServiceError "Expecting property name"))
                  no_faults RRegister jane empty_world (or_intror Hne))).
Defined.

(** *** Which route touches what *)

(** X18. Only the registration route reaches the Member table, the mirror
    and standard output, and only the contact route reaches the mail
    relay: every other route leaves them as they are. The three page
    routes make no call at all. *)
Theorem routes_keep_to_their_stores cfg f r req w :
  (r <> RRegister ->
   member_table (world_of (serve cfg f r req w)) = member_table w /\
   mirror (world_of (serve cfg f r req w)) = mirror w /\
   stdout (world_of (serve cfg f r req w)) = stdout w) /\
  (r <> RContact ->
   sent_mail (world_of (serve cfg f r req w)) = sent_mail w) /\
  (r <> RRegister -> r <> RContact ->
   world_of (serve cfg f r req w) = w /\
   context_of (serve cfg f r req w) = empty_context).
Proof.
  split; [|split].
  - intros Hr.
    destruct r; try (now contradiction Hr); try (repeat split; reflexivity).
    pose proof (contact_cases cfg f req w) as Hc.
    destruct Hc as [Hm|key Hm Hk|n e m x Hw Hx|n e m Hw Hx];
      unfold world_of; simpl; auto.
  - intros Hr.
    destruct r; try (now contradiction Hr); try reflexivity.
    pose proof (register_cases cfg f req w) as Hc.
    destruct Hc as [ Hm | key Hk | n e p k x Hs Hq | n e p k m Hs Hq Hf
                   | n e p k x Hs Hq Hf Hcf | n e p k Hs Hq Hf Hcf ];
      unfold world_of; simpl; try reflexivity.
    now rewrite after_mirror_sent_mail.
  - intros H1 H2.
    destruct r; try (now contradiction H1); try (now contradiction H2);
      split; reflexivity.
Qed.


Lemma routes_on_a_page_request :
  RAbout <> RRegister /\ RAbout <> RContact /\
  world_of (serve cfg_on store_down RAbout jane jane_world) = jane_world.
Proof.
  assert (H1 : RAbout <> RRegister) by discriminate.
  assert (H2 : RAbout <> RContact) by discriminate.
  split; [exact H1|]. split; [exact H2|].
  destruct (routes_keep_to_their_stores cfg_on store_down RAbout jane jane_world)
    as (_ & _ & Hpage).
  exact (proj1 (Hpage H1 H2)).
Defined.


(** *** Normalization *)

Lemma lstrip_app_blank pre s : blank pre = true -> lstrip (pre ++ s)%string = lstrip s.
Proof.
  induction pre as [|c r IH]; simpl; [reflexivity|].
  intros H. apply andb_true_iff in H as [Hc Hr]. rewrite Hc. auto.
Qed.

Lemma lstrip_app_solid s post :
  blank s = false -> lstrip (s ++ post)%string = (lstrip s ++ post)%string.
Proof.
  induction s as [|c r IH]; simpl; [discriminate|].
  destruct (isspace c); simpl; [exact IH|reflexivity].
Qed.

Lemma rstrip_app_blank s post :
  blank post = true -> rstrip (s ++ post)%string = rstrip s.
Proof.
  intros H. induction s as [|c r IH]; simpl.
  - now apply rstrip_blank.
  - now rewrite IH.
Qed.

Lemma strip_padded pre s post :
  blank pre = true -> blank post = true ->
  strip (pre ++ s ++ post)%string = strip s.
Proof.
  intros Hpre Hpost. unfold strip. rewrite (lstrip_app_blank _ _ Hpre).
  destruct (blank s) eqn:Hs.
  - rewrite (lstrip_app_blank _ _ Hs), (lstrip_blank _ Hpost), (lstrip_blank _ Hs).
    reflexivity.
  - rewrite (lstrip_app_solid _ _ Hs). now apply rstrip_app_blank.
Qed.

Lemma lstrip_lower s : lstrip (lower s) = lower (lstrip s).
Proof.
  induction s as [|c r IH]; simpl; [reflexivity|].
  rewrite isspace_lower_char. destruct (isspace c); [exact IH|reflexivity].
Qed.

Lemma rstrip_lower s : rstrip (lower s) = lower (rstrip s).
Proof.
  induction s as [|c r IH]; simpl; [reflexivity|].
  rewrite IH, isspace_lower_char.
  destruct (rstrip r) as [|b r']; simpl; [|reflexivity].
  destruct (isspace c); reflexivity.
Qed.

Lemma strip_lower s : strip (lower s) = lower (strip s).
Proof. unfold strip. now rewrite lstrip_lower, rstrip_lower. Qed.

(** X20. The duplicate check does not tell apart two submitted emails that
    differ only in the case of their letters and in whitespace around
    them: they normalize to the same text. *)
Theorem normalization_ignores_case_and_padding pre post a b :
  lower a = lower b ->
  blank pre = true ->
  blank post = true ->
  normalize_email (pre ++ a ++ post)%string = normalize_email b.
Proof.
  intros Hab Hpre Hpost. unfold normalize_email.
  rewrite (strip_padded _ _ _ Hpre Hpost).
  rewrite <- !strip_lower. now rewrite Hab.
Qed.

Lemma normalization_jane :
  lower "JANE@Example.COM" = lower "jane@EXAMPLE.com" /\
  normalize_email ("  " ++ "JANE@Example.COM" ++ String "009" (String "010" ""))%string =
    "jane@example.com" /\
  normalize_email "jane@EXAMPLE.com" = "jane@example.com".
Proof.
  split; [reflexivity|]. split; [|reflexivity].
  rewrite (normalization_ignores_case_and_padding
             "  " (String "009" (String "010" "")) "JANE@Example.COM" "jane@EXAMPLE.com"
             eq_refl eq_refl eq_refl).
  reflexivity.
Defined.

(** *** Two registrations of different emails at the same time *)

Lemma count_email_other e e' rows m :
  email m = e -> e' <> e ->
  count_email e' (rows ++ [m]) = count_email e' rows.
Proof.
  intros He Hne. rewrite count_email_app. unfold count_email at 2. simpl.
  rewrite He. destruct (e =? e')%string eqn:E; [|simpl; lia].
  apply String.eqb_eq in E. congruence.
Qed.

(** An operation of a registration that has not been turned away keeps
    the count of its own email in step with its phase, does not get turned
    away while its email has no row of another request, and leaves the
    rows of other emails alone. *)
Lemma transition_apart e m ph ph' w w' e' :
  email m = e -> e' <> e ->
  settled ph = false ->
  count_email e (member_table w) = won ph ->
  transition e m ph ph' w w' ->
  settled ph' = false /\
  count_email e (member_table w') = won ph' /\
  count_email e' (member_table w') = count_email e' (member_table w).
Proof.
  intros He Hne Hset Hcount Htr.
  destruct Htr as [w Hf|w r Hf| w |w Hf|w r Hf|ph w w' d Hq Ht Hcalls Hd]; simpl in *.
  - repeat split. exact Hcount.
  - pose proof (count_email_found _ _ _ Hf) as Hone. rewrite Hcount in Hone. lia.
  - repeat split. exact Hcount.
  - split; [reflexivity|]. split.
    + rewrite count_email_app, Hcount. unfold count_email. simpl.
      rewrite He, String.eqb_refl. reflexivity.
    + apply (count_email_other e); [exact He|exact Hne].
  - pose proof (count_email_found _ _ _ Hf) as Hone. rewrite Hcount in Hone. lia.
  - rewrite Ht. split; [exact Hset|]. split; [exact Hcount|reflexivity].
Qed.

Lemma apart_step1 cfg fn1 e1 p1 k1 fn2 e2 p2 k2 ph1 ph2 t1 t2 w :
  secret_key cfg <> "" ->
  e1 <> e2 ->
  apart_inv cfg fn1 e1 p1 k1 fn2 e2 p2 k2 ph1 ph2 (t1, t2, w) ->
  exists ph1',
    apart_inv cfg fn1 e1 p1 k1 fn2 e2 p2 k2 ph1' ph2
      (fst (step_thread t1 w), t2, snd (step_thread t1 w)).
Proof.
  unfold apart_inv, thread1, thread2, shared. simpl.
  intros Hkey Hne (H1 & H2 & Hs1 & Hs2 & Hc1 & Hc2).
  destruct (step_phase cfg fn1 e1 p1 k1 ph1 t1 w Hkey H1) as (ph1' & H1' & Htr).
  assert (Hne' : e2 <> e1) by congruence.
  destruct (transition_apart e1 (mkMember None fn1 e1 p1 k1) _ _ _ _ e2 eq_refl Hne' Hs1 Hc1 Htr)
    as (Hs1' & Hc1' & Hother).
  exists ph1'. split; [exact H1'|]. split; [exact H2|].
  split; [exact Hs1'|]. split; [exact Hs2|]. split; [exact Hc1'|].
  now rewrite Hother.
Qed.

Lemma apart_step2 cfg fn1 e1 p1 k1 fn2 e2 p2 k2 ph1 ph2 t1 t2 w :
  secret_key cfg <> "" ->
  e1 <> e2 ->
  apart_inv cfg fn1 e1 p1 k1 fn2 e2 p2 k2 ph1 ph2 (t1, t2, w) ->
  exists ph2',
    apart_inv cfg fn1 e1 p1 k1 fn2 e2 p2 k2 ph1 ph2'
      (t1, fst (step_thread t2 w), snd (step_thread t2 w)).
Proof.
  unfold apart_inv, thread1, thread2, shared. simpl.
  intros Hkey Hne (H1 & H2 & Hs1 & Hs2 & Hc1 & Hc2).
  destruct (step_phase cfg fn2 e2 p2 k2 ph2 t2 w Hkey H2) as (ph2' & H2' & Htr).
  destruct (transition_apart e2 (mkMember None fn2 e2 p2 k2) _ _ _ _ e1 eq_refl Hne Hs2 Hc2 Htr)
    as (Hs2' & Hc2' & Hother).
  exists ph2'. split; [exact H1|]. split; [exact H2'|].
  split; [exact Hs1|]. split; [exact Hs2'|]. split; [|exact Hc2'].
  now rewrite Hother.
Qed.

Lemma apart_inv_interleave cfg fn1 e1 p1 k1 fn2 e2 p2 k2 sched :
  secret_key cfg <> "" ->
  e1 <> e2 ->
  forall ph1 ph2 t1 t2 w,
    apart_inv cfg fn1 e1 p1 k1 fn2 e2 p2 k2 ph1 ph2 (t1, t2, w) ->
    exists ph1' ph2',
      apart_inv cfg fn1 e1 p1 k1 fn2 e2 p2 k2 ph1' ph2' (interleave sched t1 t2 w).
Proof.
  intros Hkey Hne.
  induction sched as [|b sched IH]; intros ph1 ph2 t1 t2 w Hinv.
  - exists ph1, ph2. exact Hinv.
  - destruct b; simpl.
    + destruct (apart_step2 _ _ _ _ _ _ _ _ _ _ _ _ _ _ Hkey Hne Hinv) as [ph2' Hinv'].
      destruct (step_thread t2 w) as [t2' w1]. simpl in Hinv'.
      exact (IH _ _ _ _ _ Hinv').
    + destruct (apart_step1 _ _ _ _ _ _ _ _ _ _ _ _ _ _ Hkey Hne Hinv) as [ph1' Hinv'].
      destruct (step_thread t1 w) as [t1' w1]. simpl in Hinv'.
      exact (IH _ _ _ _ _ Hinv').
Qed.

(** X21. With a secret key that is not empty, two registrations of
    different normalized emails, both new to the store, do not get in each
    other's way: served together under any schedule that gives each at
    least six turns, with the store answering, both end with the success
    outcome and each email has exactly one row. *)
Theorem racing_different_emails_both_succeed
    cfg f1 f2 req1 req2 n1 e1 p1 k1 n2 e2 p2 k2 w sched :
  secret_key cfg <> "" ->
  submits req1 n1 e1 p1 k1 ->
  submits req2 n2 e2 p2 k2 ->
  lower (strip e1) <> lower (strip e2) ->
  ~ has_email (lower (strip e1)) (member_table w) ->
  ~ has_email (lower (strip e2)) (member_table w) ->
  healthy f1 -> healthy f2 ->
  (6 <= turns false sched)%nat -> (6 <= turns true sched)%nat ->
  final (thread1 (race cfg f1 f2 req1 req2 sched w)) = Some (Returned (Redirect "index")) /\
  final (thread2 (race cfg f1 f2 req1 req2 sched w)) = Some (Returned (Redirect "index")) /\
  count_email (lower (strip e1)) (member_table (shared (race cfg f1 f2 req1 req2 sched w))) = 1%nat /\
  count_email (lower (strip e2)) (member_table (shared (race cfg f1 f2 req1 req2 sched w))) = 1%nat.
Proof.
  intros Hkey Hs1 Hs2 Hne Hfr1 Hfr2 Hf1 Hf2 Ht1 Ht2.
  unfold race.
  rewrite (register_submitted cfg req1 n1 e1 p1 k1 Hs1).
  rewrite (register_submitted cfg req2 n2 e2 p2 k2 Hs2).
  unfold normalize_email.
  set (a := lower (strip e1)) in *. set (b := lower (strip e2)) in *.
  set (t1 := start (register_check cfg (strip n1) a (strip p1) k1) f1).
  set (t2 := start (register_check cfg (strip n2) b (strip p2) k2) f2).
  destruct (interleave_finishes sched 6 6 t1 t2 w) as [Hfin1 Hfin2];
    try assumption; try apply within_check.
  assert (Hinit : apart_inv cfg (strip n1) a (strip p1) k1 (strip n2) b (strip p2) k2
                    Checking Checking (t1, t2, w)).
  { unfold apart_inv, at_phase, thread1, thread2, shared. simpl.
    apply first_by_email_absent in Hfr1. apply first_by_email_absent in Hfr2.
    rewrite (count_email_absent _ _ Hfr1), (count_email_absent _ _ Hfr2).
    split; [split; [exact Hf1|split; reflexivity]|].
    split; [split; [exact Hf2|split; reflexivity]|].
    repeat split; reflexivity. }
  destruct (apart_inv_interleave _ _ _ _ _ _ _ _ _ sched Hkey Hne _ _ _ _ _ Hinit)
    as (ph1 & ph2 & H1 & H2 & Hset1 & Hset2 & Hc1 & Hc2).
  destruct (finished_phase _ _ _ _ _ _ _ Hkey H1 Hfin1) as [[-> Hw1]|[[-> _]|[-> _]]];
    try discriminate.
  destruct (finished_phase _ _ _ _ _ _ _ Hkey H2 Hfin2) as [[-> Hw2]|[[-> _]|[-> _]]];
    try discriminate.
  split; [exact Hw1|]. split; [exact Hw2|]. split; [exact Hc1|exact Hc2].
Qed.

Lemma jane_and_sipho_both_succeed :
  secret_key cfg_on <> "" /\
  submits jane " Jane Doe " " Jane@Example.com " "0712345678" "Gold" /\
  submits sipho "Sipho" "Sipho@Example.org" "0820000000" "Silver" /\
  lower (strip " Jane@Example.com ") <> lower (strip "Sipho@Example.org") /\
  (6 <= turns false both_check_first)%nat /\ (6 <= turns true both_check_first)%nat /\
  final (thread1 race_apart) = Some (Returned (Redirect "index")) /\
  final (thread2 race_apart) = Some (Returned (Redirect "index")) /\
  map email (member_table (shared race_apart)) = ["jane@example.com"; "sipho@example.org"].
Proof.
  assert (Hkey : secret_key cfg_on <> "") by discriminate.
  assert (Hs1 : submits jane " Jane Doe " " Jane@Example.com " "0712345678" "Gold")
    by (repeat split; reflexivity).
  assert (Hs2 : submits sipho "Sipho" "Sipho@Example.org" "0820000000" "Silver")
    by (repeat split; reflexivity).
  assert (Hne : lower (strip " Jane@Example.com ") <> lower (strip "Sipho@Example.org"))
    by discriminate.
  assert (Hfr1 : ~ has_email (lower (strip " Jane@Example.com ")) (member_table empty_world))
    by (intros [m [[] _]]).
  assert (Hfr2 : ~ has_email (lower (strip "Sipho@Example.org")) (member_table empty_world))
    by (intros [m [[] _]]).
  assert (Ht1 : (6 <= turns false both_check_first)%nat) by (vm_compute; lia).
  assert (Ht2 : (6 <= turns true both_check_first)%nat) by (vm_compute; lia).
  split; [exact Hkey|].
  split; [exact Hs1|]. split; [exact Hs2|]. split; [exact Hne|].
  split; [exact Ht1|]. split; [exact Ht2|].
  destruct (racing_different_emails_both_succeed cfg_on no_faults mirror_down jane sipho
              " Jane Doe " " Jane@Example.com " "0712345678" "Gold"
              "Sipho" "Sipho@Example.org" "0820000000" "Silver"
              empty_world both_check_first
              Hkey Hs1 Hs2 Hne Hfr1 Hfr2 (conj eq_refl eq_refl) (conj eq_refl eq_refl)
              Ht1 Ht2) as (Hw1 & Hw2 & _).
  split; [exact Hw1|]. split; [exact Hw2|reflexivity].
Defined.

(** X22. A contact POST that lacks one of its three fields raises inside
    the handler's [try] before the message exists: no call reaches the
    relay, no mail is sent and the world is left as it was. With a secret
    key that is not empty the submitter is told of a failed send with the
    bad-request text; with an empty one the flash of that text raises and
    the request ends with its RuntimeError. *)
Theorem contact_missing_field_not_sent cfg f req w :
  method req = "POST" ->
  (multidict_get "name" (form req) = None \/
   multidict_get "email" (form req) = None \/
   multidict_get "message" (form req) = None) ->
  world_of (serve cfg f RContact req w) = w /\
  (secret_key cfg <> "" ->
   serve cfg f RContact req w =
     (Returned (Redirect "contact"), w,
      mkContext []
        [("danger",
          "Failed to send message: 400 Bad Request: The browser (or proxy) sent a request that this server could not understand."%string)])) /\
  (secret_key cfg = "" ->
   serve cfg f RContact req w =
     (Raised (RuntimeError session_unavailable), w, mkContext [] [])).
Proof.
  intros Hm Hmiss.
  destruct (contact_missing_field cfg f req w Hm Hmiss) as [key ->].
  split; [reflexivity|]. split; intros Hkey.
  - now rewrite flash_result_keyed, flash_list_keyed.
  - now rewrite flash_result_keyless, flash_list_keyless.
Qed.

Lemma no_phone_contact_not_sent :
  method no_phone = "POST" /\
  multidict_get "message" (form no_phone) = None /\
  world_of (serve cfg_on no_faults RContact no_phone jane_world) = jane_world /\
  calls_since jane_world (world_of (serve cfg_on no_faults RContact no_phone jane_world)) = [].
Proof.
  split; [reflexivity|]. split; [reflexivity|].
  destruct (contact_missing_field_not_sent cfg_on no_faults no_phone jane_world
              eq_refl (or_intror (or_intror eq_refl))) as (Hw & _).
  rewrite Hw. split; reflexivity.
Defined.

(** *** From the start to a request, with an empty [SECRET_KEY] *)

(** A process started with [SECRET_KEY] set to the empty text stores a new
    registration and sends a contact message, and ends either request with
    the exception of the flash. *)
Example keyless_start_requests_raise :
  serve (Startup.handler_config Startup.env_keyless false None)
        no_faults RRegister jane empty_world =
    (Raised (RuntimeError session_unavailable),
     set_table [jane_row]
       (log_call (CallCommit [mkMember None "Jane Doe" "jane@example.com" "0712345678" "Gold"])
          (log_call (CallQuery "jane@example.com") empty_world)),
     mkContext [] []) /\
  result_of (serve (Startup.handler_config Startup.env_keyless false None)
               no_faults RContact note empty_world) =
    Raised (RuntimeError session_unavailable) /\
  Datatypes.length
    (sent_mail (world_of (serve (Startup.handler_config Startup.env_keyless false None)
                            no_faults RContact note empty_world))) = 1%nat.
Proof. repeat split. Qed.

End LifecycleFacts.

